(** * project3: k-means and the EM driver of the mixture models

    A shallow embedding of [project3/project3.py]: the clustering routine
    [k_means] and the classes [MixtureModel], [GMM] and [CMM].

    Arithmetic comes in two layers. In the first a float is an exact
    rational or one of the three IEEE special values: rounding and overflow
    are left out, while the behaviour of numpy on a division by zero (a
    quiet [inf] or [nan]) and of comparisons against [nan] (always false)
    is kept, and [mu] is a floating-point array. The second layer takes
    what the first leaves out as a parameter: the dtype of the array bound
    to [mu] ([k_means_in]), the distance as [np.linalg.norm] computes it
    ([closest_by]) and the rounding of the float operations ([fit_by]);
    each is the first layer where its parameter changes nothing.

    Random draws are arguments, array objects that are written in place
    are kept apart from the names bound to them, and a [while] loop runs on
    fuel. Progress lines are not modelled; the pass counter they print
    is. *)

From Stdlib Require Import QArith Qcanon Lqa.
From stdpp Require Import base numbers list strings gmap fin_maps.

Local Open Scope Qc_scope.

(** ** Numeric substrate *)

Inductive num : Type :=
  | Fin (q : Qc)
  | PInf
  | NInf
  | NaN.

#[global] Instance num_eq_dec : EqDecision num.
Proof. solve_decision. Defined.

Definition of_Z (n : Z) : num := Fin (Qc_of_Z n).
Definition of_nat (n : nat) : num := of_Z (Z.of_nat n).
Definition frac (n : Z) (d : positive) : num := Fin (Q2Qc (n # d)).

Definition is_fin (x : num) : bool :=
  match x with Fin _ => true | _ => false end.

Definition is_nan (x : num) : bool :=
  match x with NaN => true | _ => false end.

Definition nopp (x : num) : num :=
  match x with
  | Fin a => Fin (- a)
  | PInf => NInf
  | NInf => PInf
  | NaN => NaN
  end.

Definition nadd (x y : num) : num :=
  match x, y with
  | NaN, _ | _, NaN => NaN
  | Fin a, Fin b => Fin (a + b)
  | PInf, NInf | NInf, PInf => NaN
  | PInf, _ | _, PInf => PInf
  | NInf, _ | _, NInf => NInf
  end.

Definition nsub (x y : num) : num := nadd x (nopp y).

(** The sign of an infinite operand scaled by a finite one; [inf * 0] is
    [nan]. *)
Definition scale_inf (a : Qc) (pos : bool) : num :=
  match a ?= 0 with
  | Eq => NaN
  | Gt => if pos then PInf else NInf
  | Lt => if pos then NInf else PInf
  end.

Definition nmul (x y : num) : num :=
  match x, y with
  | NaN, _ | _, NaN => NaN
  | Fin a, Fin b => Fin (a * b)
  | Fin a, PInf | PInf, Fin a => scale_inf a true
  | Fin a, NInf | NInf, Fin a => scale_inf a false
  | PInf, PInf | NInf, NInf => PInf
  | PInf, NInf | NInf, PInf => NInf
  end.

(** numpy's true division: a zero denominator gives [nan] for [0/0] and a
    signed infinity otherwise; nothing is raised. *)
Definition ndiv (x y : num) : num :=
  match x, y with
  | NaN, _ | _, NaN => NaN
  | Fin a, Fin b =>
      if decide (b = 0) then
        match a ?= 0 with Eq => NaN | Gt => PInf | Lt => NInf end
      else Fin (a / b)
  | Fin _, (PInf | NInf) => Fin 0
  | PInf, Fin b => if decide (b < 0) then NInf else PInf
  | NInf, Fin b => if decide (b < 0) then PInf else NInf
  | (PInf | NInf), (PInf | NInf) => NaN
  end.

Definition nabs (x : num) : num :=
  match x with
  | Fin a => if decide (a < 0) then Fin (- a) else Fin a
  | PInf | NInf => PInf
  | NaN => NaN
  end.

(** [x < y]: false as soon as one side is [nan]. *)
Definition nltb (x y : num) : bool :=
  match x, y with
  | NaN, _ | _, NaN => false
  | Fin a, Fin b => bool_decide (a < b)
  | NInf, NInf => false
  | NInf, _ => true
  | _, NInf => false
  | PInf, _ => false
  | Fin _, PInf => true
  end.

(** ** Vectors, matrices and the L2 norm *)

Abbreviation vec := (list num).
Abbreviation matrix := (list (list num)).

Definition vadd (u v : vec) : vec := zip_with nadd u v.
Definition vsub (u v : vec) : vec := zip_with nsub u v.
Definition vdiv (u : vec) (c : num) : vec := map (λ x, ndiv x c) u.
Definition vsum (u : vec) : num := foldl nadd (Fin 0) u.
Definition zeros (d : nat) : vec := replicate d (Fin 0).
Definition zeros2 (k d : nat) : matrix := replicate k (zeros d).

(** A distance is the non-negative square root of [sq], kept exact through
    its radicand: [np.linalg.norm (v, ord=2)] is the root of the sum of the
    squares, and [float ('inf')] is the root of [PInf]. This is the norm
    in exact arithmetic; [closest_by] takes the norm as computed. *)
Record dist : Type := Sqrt { sq : num }.

Definition norm (v : vec) : dist := Sqrt (vsum (map (λ x, nmul x x) v)).
Definition dist_inf : dist := Sqrt PInf.

(** [a < b] between two distances: the root is increasing. *)
Definition dist_ltb (a b : dist) : bool := nltb (sq a) (sq b).

(** [a > e] for a distance [a] and a float [e] of either sign. *)
Definition dist_gtb (a : dist) (e : num) : bool :=
  match sq a, e with
  | NaN, _ | _, NaN => false
  | _, PInf => false
  | _, NInf => true
  | r, Fin x => if decide (x < 0) then true else nltb (Fin (x * x)) r
  end.

(** ** Outcomes of a call *)

Inductive exn : Type :=
  | IndexError
  | ZeroDivisionError
  | NotImplementedError
  | AttributeError.

#[global] Instance exn_eq_dec : EqDecision exn.
Proof. solve_decision. Defined.

(** [Fuel] is the embedding's own outcome for a [while] loop cut short. *)
Inductive outcome (A : Type) : Type :=
  | Ret (a : A)
  | Raise (e : exn)
  | Fuel.
Arguments Ret {A} a.
Arguments Raise {A} e.
Arguments Fuel {A}.

#[global] Instance outcome_ret : MRet outcome := λ A a, Ret a.

#[global] Instance outcome_bind : MBind outcome := λ A B f m,
  match m with
  | Ret a => f a
  | Raise e => Raise e
  | Fuel => Fuel
  end.

#[global] Instance outcome_fmap : FMap outcome := λ A B f m,
  match m with
  | Ret a => Ret (f a)
  | Raise e => Raise e
  | Fuel => Fuel
  end.

(** [l[i]] for an index taken from a [range]. *)
Definition getitem {A : Type} (l : list A) (i : nat) : outcome A :=
  match l !! i with
  | Some a => Ret a
  | None => Raise IndexError
  end.

(** [l[i] = a]. *)
Definition setitem {A : Type} (l : list A) (i : nat) (a : A) : outcome (list A) :=
  if decide (i < length l)%nat then Ret (<[i := a]> l) else Raise IndexError.

(** [for i in range (n): s = body (i, s)]. *)
Fixpoint for_each {S : Type} (ixs : list nat) (body : nat → S → outcome S)
    (s : S) : outcome S :=
  match ixs with
  | [] => Ret s
  | i :: ixs' => s' ← body i s; for_each ixs' body s'
  end.

Definition for_range {S : Type} (n : nat) (body : nat → S → outcome S)
    (s : S) : outcome S :=
  for_each (seq 0 n) body s.

(** ** [k_means] *)

(** The two array objects a run allocates or receives: the one bound to [mu]
    (the caller's array, or the rows drawn from [data]) and the one made by
    [np.zeros ((k, d))] for [prev_mu]. The name [mu] is never rebound; the
    name [prev_mu] is, so the state records which object it denotes. *)
Inductive ref : Type := MuObj | ZerosObj.

#[global] Instance ref_eq_dec : EqDecision ref.
Proof. solve_decision. Defined.

Record kstate : Type := KState {
  mu_obj : matrix;
  zeros_obj : matrix;
  prev_mu : ref;
  assignments : list nat;
  cluster_sizes : list nat;
  cluster_sums : matrix;
  converged : bool;
  iters : nat
}.

Definition deref (st : kstate) (r : ref) : matrix :=
  match r with
  | MuObj => mu_obj st
  | ZerosObj => zeros_obj st
  end.

Definition with_mu_obj (st : kstate) (m : matrix) : kstate :=
  KState m (zeros_obj st) (prev_mu st) (assignments st) (cluster_sizes st)
    (cluster_sums st) (converged st) (iters st).

Definition with_prev_mu (st : kstate) (r : ref) : kstate :=
  KState (mu_obj st) (zeros_obj st) r (assignments st) (cluster_sizes st)
    (cluster_sums st) (converged st) (iters st).

Definition with_accumulators (st : kstate) (a sizes : list nat)
    (sums : matrix) : kstate :=
  KState (mu_obj st) (zeros_obj st) (prev_mu st) a sizes sums (converged st)
    (iters st).

Definition with_converged (st : kstate) (b : bool) : kstate :=
  KState (mu_obj st) (zeros_obj st) (prev_mu st) (assignments st)
    (cluster_sizes st) (cluster_sums st) b (iters st).

Definition with_iters (st : kstate) (i : nat) : kstate :=
  KState (mu_obj st) (zeros_obj st) (prev_mu st) (assignments st)
    (cluster_sizes st) (cluster_sums st) (converged st) i.

(** One turn of the scan over the centroids (lines 46-51). *)
Definition scan_step (mu : matrix) (x : vec) (u : nat) (acc : nat * dist)
    : outcome (nat * dist) :=
  m ← getitem mu u;
  let resid := vsub x m in
  let euc_dist := norm resid in
  if dist_ltb euc_dist acc.2 then Ret (u, euc_dist) else Ret acc.

(** The cluster chosen for the point [x] (lines 42-51). *)
Definition closest (mu : matrix) (k : nat) (x : vec) : outcome nat :=
  acc ← for_range k (scan_step mu x) (0%nat, dist_inf);
  Ret acc.1.

(** The body of the loop over the points (lines 42-55). *)
Definition assign_point (data : matrix) (k : nat) (pt : nat) (st : kstate)
    : outcome kstate :=
  x ← getitem data pt;
  cluster_id ← closest (mu_obj st) k x;
  a ← setitem (assignments st) pt cluster_id;
  size ← getitem (cluster_sizes st) cluster_id;
  sizes ← setitem (cluster_sizes st) cluster_id (S size);
  sum ← getitem (cluster_sums st) cluster_id;
  sums ← setitem (cluster_sums st) cluster_id (vadd sum x);
  Ret (with_accumulators st a sizes sums).

(** [mu[i] = cluster_sums[i] / cluster_sizes[i]] (line 59): a write into the
    object bound to [mu], here a floating-point array, which holds the
    quotient as it is; [update_centroid_in] takes the dtype. *)
Definition update_centroid (i : nat) (st : kstate) : outcome kstate :=
  sum ← getitem (cluster_sums st) i;
  size ← getitem (cluster_sizes st) i;
  m ← setitem (mu_obj st) i (vdiv sum (of_nat size));
  Ret (with_mu_obj st m).

(** The body of the convergence loop (lines 63-66): [converged] is
    assigned on both branches. *)
Definition check_centroid (eps : num) (i : nat) (st : kstate) : outcome kstate :=
  m ← getitem (mu_obj st) i;
  p ← getitem (deref st (prev_mu st)) i;
  if dist_gtb (norm (vsub m p)) eps
  then Ret (with_converged st false)
  else Ret (with_converged st true).

(** One pass through the body of the [while] loop (lines 37-69). *)
Definition k_means_iter (data : matrix) (k : nat) (eps : num) (st : kstate)
    : outcome kstate :=
  let st := with_iters st (S (iters st)) in
  st ← for_range (length data) (assign_point data k) st;
  st ← for_range k update_centroid st;
  st ← for_range k (check_centroid eps) st;
  Ret (with_prev_mu st MuObj).

(** [while (not converged)]: at most [fuel] passes, [Fuel] beyond. *)
Fixpoint k_means_loop (fuel : nat) (data : matrix) (k : nat) (eps : num)
    (st : kstate) : outcome kstate :=
  if converged st then Ret st
  else match fuel with
       | O => Fuel
       | S fuel' =>
           st' ← k_means_iter data k eps st;
           k_means_loop fuel' data k eps st'
       end.

(** [d] of [n, d = data.shape], read off the first row. *)
Definition width (data : matrix) : nat :=
  match data with
  | [] => 0
  | r :: _ => length r
  end.

(** The state on entry to the [while] loop (lines 27-35). *)
Definition init_state (data : matrix) (k : nat) (mu : matrix) : kstate :=
  {| mu_obj := mu;
     zeros_obj := zeros2 k (width data);
     prev_mu := ZerosObj;
     assignments := replicate (length data) 0%nat;
     cluster_sizes := replicate k 0%nat;
     cluster_sums := zeros2 k (width data);
     converged := false;
     iters := 0 |}.

(** [data[random.sample (range (n), k)]]: the rows at the drawn indices,
    copied into a new array. The draw is the argument [sample]. *)
Fixpoint take_rows (data : matrix) (sample : list nat) : outcome matrix :=
  match sample with
  | [] => Ret []
  | i :: rest => r ← getitem data i; m ← take_rows data rest; Ret (r :: m)
  end.

(** Lines 22-24: the array [mu] is bound to when the loop starts. *)
Definition initial_mu (sample : list nat) (data : matrix)
    (mu : option matrix) : outcome matrix :=
  match mu with
  | Some m => Ret m
  | None => take_rows data sample
  end.

(** The run up to the [return], with the whole final state. *)
Definition k_means_run (fuel : nat) (sample : list nat) (data : matrix)
    (k : nat) (eps : num) (mu : option matrix) : outcome kstate :=
  mu0 ← initial_mu sample data mu;
  k_means_loop fuel data k eps (init_state data k mu0).

Definition k_means (fuel : nat) (sample : list nat) (data : matrix)
    (k : nat) (eps : num) (mu : option matrix) : outcome (matrix * list nat) :=
  st ← k_means_run fuel sample data k eps mu;
  Ret (mu_obj st, assignments st).

(** *** The dtype of the centroid array

    [mu[i] = ...] (line 59) writes in place, so the row is cast to the dtype
    of the array bound to [mu]: the caller's, or that of [data] when the
    rows are drawn from it (line 24). A floating-point array keeps the row;
    a 64-bit integer array, what [np.array] makes of Python integers, keeps
    each value truncated toward zero and, for a value that is no number or
    does not fit, the integer [invalid] that the cast yields (x86-64 gives
    [- 2 ^ 63] for both; numpy warns and raises nothing). The definitions
    above are those of a floating-point [mu]; the ones below take the
    dtype. *)
Inductive dtype : Type := Floating | Integer (invalid : Z).

Definition truncate (q : Qc) : Z := Z.quot (Qnum q) (Z.pos (Qden q)).

Definition to_integer (invalid : Z) (x : num) : num :=
  match x with
  | Fin q =>
      let z := truncate q in
      if decide (- 2 ^ 63 ≤ z < 2 ^ 63)%Z then of_Z z else of_Z invalid
  | _ => of_Z invalid
  end.

(** What an array of dtype [dt] holds where [nan] is written. *)
Definition stored_nan (dt : dtype) : num :=
  match dt with
  | Floating => NaN
  | Integer invalid => of_Z invalid
  end.

(** The row an array of dtype [dt] holds after [v] is written into it. *)
Definition store (dt : dtype) (v : vec) : vec :=
  match dt with
  | Floating => v
  | Integer invalid => map (to_integer invalid) v
  end.

Definition update_centroid_in (dt : dtype) (i : nat) (st : kstate)
    : outcome kstate :=
  sum ← getitem (cluster_sums st) i;
  size ← getitem (cluster_sizes st) i;
  m ← setitem (mu_obj st) i (store dt (vdiv sum (of_nat size)));
  Ret (with_mu_obj st m).

Definition k_means_iter_in (dt : dtype) (data : matrix) (k : nat)
    (eps : num) (st : kstate) : outcome kstate :=
  let st := with_iters st (S (iters st)) in
  st ← for_range (length data) (assign_point data k) st;
  st ← for_range k (update_centroid_in dt) st;
  st ← for_range k (check_centroid eps) st;
  Ret (with_prev_mu st MuObj).

Fixpoint k_means_loop_in (dt : dtype) (fuel : nat) (data : matrix) (k : nat)
    (eps : num) (st : kstate) : outcome kstate :=
  if converged st then Ret st
  else match fuel with
       | O => Fuel
       | S fuel' =>
           st' ← k_means_iter_in dt data k eps st;
           k_means_loop_in dt fuel' data k eps st'
       end.

Definition k_means_run_in (dt : dtype) (fuel : nat) (sample : list nat)
    (data : matrix) (k : nat) (eps : num) (mu : option matrix)
    : outcome kstate :=
  mu0 ← initial_mu sample data mu;
  k_means_loop_in dt fuel data k eps (init_state data k mu0).

Definition k_means_in (dt : dtype) (fuel : nat) (sample : list nat)
    (data : matrix) (k : nat) (eps : num) (mu : option matrix)
    : outcome (matrix * list nat) :=
  st ← k_means_run_in dt fuel sample data k eps mu;
  Ret (mu_obj st, assignments st).

(** *** The distance as computed

    [np.linalg.norm (resid, ord=2)] returns a float64: the root of the dot
    product of [resid] with itself, every operation rounded, and [inf] once
    the dot product is beyond the largest double. [norm] is its exact
    value, and [closest] the scan over exact distances. The scan below
    takes the function that computes the distance of a point to a centroid
    and compares the floats it returns. *)
Definition scan_step_by (measure : vec → vec → num) (mu : matrix) (x : vec)
    (u : nat) (acc : nat * num) : outcome (nat * num) :=
  m ← getitem mu u;
  let euc_dist := measure x m in
  if nltb euc_dist acc.2 then Ret (u, euc_dist) else Ret acc.

Definition closest_by (measure : vec → vec → num) (mu : matrix) (k : nat)
    (x : vec) : outcome nat :=
  acc ← for_range k (scan_step_by measure mu x) (0%nat, PInf);
  Ret acc.1.

Definition assign_point_by (measure : vec → vec → num) (data : matrix)
    (k : nat) (pt : nat) (st : kstate) : outcome kstate :=
  x ← getitem data pt;
  cluster_id ← closest_by measure (mu_obj st) k x;
  a ← setitem (assignments st) pt cluster_id;
  size ← getitem (cluster_sizes st) cluster_id;
  sizes ← setitem (cluster_sizes st) cluster_id (S size);
  sum ← getitem (cluster_sums st) cluster_id;
  sums ← setitem (cluster_sums st) cluster_id (vadd sum x);
  Ret (with_accumulators st a sizes sums).

(** A double is at most [2 ^ 1024 - 2 ^ 971]; rounding to nearest turns a
    result of [2 ^ 1024 - 2 ^ 970] or more into [inf]. *)
Definition overflow_bound : Qc := Qc_of_Z (2 ^ 1024 - 2 ^ 970).

(** A computed distance that keeps the overflow of the dot product and
    leaves the rounding of the root to [root]. *)
Definition float_distance (root : Qc → Qc) (x m : vec) : num :=
  match sq (norm (vsub x m)) with
  | Fin q => if decide (q < overflow_bound) then Fin (root q) else PInf
  | s => s
  end.

(** The root of a rational whose numerator and denominator are squares:
    float64 returns it without rounding when it fits a double. *)
Definition root_of_square (q : Qc) : Qc :=
  Q2Qc (Z.sqrt (Qnum q) # Pos.sqrt (Qden q)).

(** ** The mixture models *)

(** A Python float is a builtin [float] or a numpy [float64]; the two differ
    on a zero denominator, where the builtin raises and numpy answers [inf]
    or [nan]. An operation with one numpy operand is numpy's. *)
Inductive flavour : Type := Builtin | Numpy64.

Record pyfloat : Type := PyFloat { fval : num; fkind : flavour }.

Definition join (a b : flavour) : flavour :=
  match a, b with
  | Builtin, Builtin => Builtin
  | _, _ => Numpy64
  end.

Definition fsub (a b : pyfloat) : pyfloat :=
  PyFloat (nsub (fval a) (fval b)) (join (fkind a) (fkind b)).

Definition fdiv (a b : pyfloat) : outcome pyfloat :=
  match join (fkind a) (fkind b) with
  | Builtin =>
      if decide (fval b = Fin 0) then Raise ZeroDivisionError
      else Ret (PyFloat (ndiv (fval a) (fval b)) Builtin)
  | Numpy64 => Ret (PyFloat (ndiv (fval a) (fval b)) Numpy64)
  end.

Definition fabs (a : pyfloat) : pyfloat := PyFloat (nabs (fval a)) (fkind a).

Definition fltb (a b : pyfloat) : bool := nltb (fval a) (fval b).

(** [np.finfo (float).min], the most negative finite double. *)
Definition float_min : pyfloat :=
  PyFloat (of_Z (- (2 ^ 1024 - 2 ^ 971))) Numpy64.

Inductive pyval : Type :=
  | VInt (n : Z)
  | VFloat (x : pyfloat)
  | VVec (v : vec)
  | VMat (m : matrix)
  | VMats (ms : list matrix).

(** A model object: the constructor's [k], the other entries of the instance
    dictionary (those written by [setattr]), and the dictionary [params]. *)
Record model : Type := Model {
  k : nat;
  inst : gmap string pyval;
  params : gmap string pyval
}.

Definition with_params (self : model) (p : gmap string pyval) : model :=
  Model (k self) (inst self) p.

Definition with_inst (self : model) (d : gmap string pyval) : model :=
  Model (k self) d (params self).

(** [MixtureModel.__init__]; [pi] is the Dirichlet draw. *)
Definition MixtureModel_init (k : nat) (pi : vec) : model :=
  Model k ∅ {["pi" := VVec pi]}.

(** Reading a data attribute [self.attr] (not a method, a property or
    [params] itself): the instance dictionary first, then [__getattr__]
    (lines 84-87). *)
Definition getattr (self : model) (attr : string) : outcome pyval :=
  if decide (attr = "k") then Ret (VInt (Z.of_nat (k self)))
  else match inst self !! attr with
       | Some v => Ret v
       | None =>
           match params self !! attr with
           | Some v => Ret v
           | None => Raise AttributeError
           end
       end.

Definition setattr (self : model) (attr : string) (v : pyval) : model :=
  with_inst self (<[attr := v]> (inst self)).

(** What a concrete model supplies to the driver. *)
Class Variant : Type := {
  e_step : model → matrix → outcome (pyfloat * pyval);
  m_step : model → matrix → pyval → outcome (gmap string pyval)
}.

(** The stubs of the source: every [e_step] and [m_step] in the file raises
    [NotImplementedError]. *)
Definition MixtureModel_variant : Variant :=
  {| e_step := λ _ _, Raise NotImplementedError;
     m_step := λ _ _ _, Raise NotImplementedError |}.

Definition GMM_variant : Variant :=
  {| e_step := λ _ _, Raise NotImplementedError;
     m_step := λ _ _ _, Raise NotImplementedError |}.

Definition CMM_variant : Variant :=
  {| e_step := λ _ _, Raise NotImplementedError;
     m_step := λ _ _ _, Raise NotImplementedError |}.

(** [self.params.update (new_params)]. *)
Definition update_params (self : model) (new_params : gmap string pyval)
    : model :=
  with_params self (new_params ∪ params self).

(** Lines 140-142. *)
Definition em_step (V : Variant) (self : model) (data : matrix)
    : outcome (model * pyfloat * pyval) :=
  r ← e_step self data;
  new_params ← m_step self data r.2;
  Ret (update_params self new_params, r.1, r.2).

(** The test of line 148, in exact arithmetic; [small_change_by] takes the
    rounding. *)
Definition small_change (ll last_ll eps : pyfloat) : outcome bool :=
  q ← fdiv (fsub ll last_ll) ll;
  Ret (fltb (fabs q) eps).

(** Lines 152-154, after the [break]. *)
Definition record_fit (self : model) (data : matrix) (ll : pyfloat)
    (p_z : pyval) : model :=
  let self := setattr self "n_train" (VInt (Z.of_nat (length data))) in
  let self := setattr self "max_ll" (VFloat ll) in
  update_params self {["p_z" := p_z]}.

(** The [while True] loop of [fit]; [i] is the counter on entry to a pass.
    The result pairs the object as the call leaves it with the value
    returned. *)
Fixpoint fit_loop (V : Variant) (fuel : nat) (self : model) (data : matrix)
    (eps : pyfloat) (max_iters : nat) (last_ll : pyfloat) (i : nat)
    : outcome (model * bool) :=
  match fuel with
  | O => Fuel
  | S fuel' =>
      let i := S i in
      if decide (max_iters < i)%nat then Ret (self, false)
      else
        r ← em_step V self data;
        let self := r.1.1 in
        let ll := r.1.2 in
        c ← small_change ll last_ll eps;
        if c : bool then Ret (record_fit self data ll r.2, true)
        else fit_loop V fuel' self data eps max_iters ll i
  end.

(** [MixtureModel.fit]: the loop leaves by its [max_iters + 1]-th pass at
    the latest. *)
Definition fit (V : Variant) (self : model) (data : matrix) (eps : pyfloat)
    (max_iters : nat) : outcome (model * bool) :=
  fit_loop V (S max_iters) self data eps max_iters float_min 0.

(** *** The test as computed

    A float64 subtraction or division returns its exact result rounded to a
    double, [inf] when that is beyond the largest one. The definitions
    above leave the rounding out; those below take it as [rnd], and are the
    ones above when [rnd] changes nothing. *)
Definition fsub_by (rnd : num → num) (a b : pyfloat) : pyfloat :=
  PyFloat (rnd (nsub (fval a) (fval b))) (join (fkind a) (fkind b)).

Definition fdiv_by (rnd : num → num) (a b : pyfloat) : outcome pyfloat :=
  match join (fkind a) (fkind b) with
  | Builtin =>
      if decide (fval b = Fin 0) then Raise ZeroDivisionError
      else Ret (PyFloat (rnd (ndiv (fval a) (fval b))) Builtin)
  | Numpy64 => Ret (PyFloat (rnd (ndiv (fval a) (fval b))) Numpy64)
  end.

(** The test of line 148. *)
Definition small_change_by (rnd : num → num) (ll last_ll eps : pyfloat)
    : outcome bool :=
  q ← fdiv_by rnd (fsub_by rnd ll last_ll) ll;
  Ret (fltb (fabs q) eps).

Fixpoint fit_loop_by (rnd : num → num) (V : Variant) (fuel : nat)
    (self : model) (data : matrix) (eps : pyfloat) (max_iters : nat)
    (last_ll : pyfloat) (i : nat) : outcome (model * bool) :=
  match fuel with
  | O => Fuel
  | S fuel' =>
      let i := S i in
      if decide (max_iters < i)%nat then Ret (self, false)
      else
        r ← em_step V self data;
        let self := r.1.1 in
        let ll := r.1.2 in
        c ← small_change_by rnd ll last_ll eps;
        if c : bool then Ret (record_fit self data ll r.2, true)
        else fit_loop_by rnd V fuel' self data eps max_iters ll i
  end.

Definition fit_by (rnd : num → num) (V : Variant) (self : model)
    (data : matrix) (eps : pyfloat) (max_iters : nat)
    : outcome (model * bool) :=
  fit_loop_by rnd V (S max_iters) self data eps max_iters float_min 0.

(** The rounding that keeps the overflow only: a result of
    [overflow_bound] or more in magnitude is an infinity. *)
Definition overflow (x : num) : num :=
  match x with
  | Fin q =>
      if decide (overflow_bound ≤ q) then PInf
      else if decide (q ≤ - overflow_bound) then NInf
      else x
  | _ => x
  end.

(** [GMM.__init__]; [pi] and [mu] are the random draws. *)
Definition GMM_init (k : nat) (pi : vec) (mu : matrix) : model :=
  update_params (MixtureModel_init k pi) {["mu" := VMat mu]}.

(** [CMM.__init__]; [pi] and [alpha] are the Dirichlet draws. *)
Definition CMM_init (k : nat) (pi : vec) (alpha : list matrix) : model :=
  update_params (MixtureModel_init k pi) {["alpha" := VMats alpha]}.

(** What [data] is in [GMM.fit]: the pandas DataFrame of the docstrings,
    or a numpy array. The two answer [var (0)] differently. *)
Inductive container : Type := DataFrame | NdArray.

(** [np.mean] of an array: the sum over the length, [nan] entries
    included. *)
Definition np_mean (v : vec) : num := ndiv (vsum v) (of_nat (length v)).

(** The entries pandas counts: those that are not [nan]. *)
Definition present (v : vec) : vec := filter (λ x, is_nan x = false) v.

(** The columns of a table of rows. *)
Definition columns (data : matrix) : matrix :=
  map (λ j, omap (λ r : vec, r !! j) data) (seq 0 (width data)).

(** The divisor of a variance is the count minus [ddof]: 1 in
    [DataFrame.var], 0 in [ndarray.var]. *)
Definition ddof (c : container) : nat :=
  match c with
  | DataFrame => 1
  | NdArray => 0
  end.

(** The variance of the values [xs] with the divisor [length xs - ddof];
    [nan] when that divisor is not positive. *)
Definition variance (ddof : nat) (xs : vec) : num :=
  let n := length xs in
  if decide (n ≤ ddof)%nat then NaN
  else
    let m := np_mean xs in
    ndiv (vsum (map (λ x, nmul (nsub x m) (nsub x m)) xs))
         (of_nat (n - ddof)).

(** [data.var (0)]: pandas skips the [nan] entries of a column, numpy does
    not. *)
Definition var0 (c : container) (data : matrix) : vec :=
  match c with
  | DataFrame => map (λ col, variance 1 (present col)) (columns data)
  | NdArray => map (variance 0) (columns data)
  end.

(** [np.mean (data.var (0))]: on the Series a DataFrame answers, [np.mean]
    is [Series.mean], which skips [nan] again; on an array it is
    [np_mean]. *)
Definition mean_var0 (c : container) (data : matrix) : num :=
  match c with
  | DataFrame => np_mean (present (var0 c data))
  | NdArray => np_mean (var0 c data)
  end.

(** The first statement of [GMM.fit] (line 180). *)
Definition init_sigsq (c : container) (self : model) (data : matrix)
    : model :=
  with_params self
    (<["sigsq" := VVec (replicate (k self) (mean_var0 c data))]>
       (params self)).

Definition GMM_fit (c : container) (V : Variant) (self : model)
    (data : matrix) (eps : pyfloat) (max_iters : nat)
    : outcome (model * bool) :=
  fit V (init_sigsq c self data) data eps max_iters.

(** *** The claim's words on [sigsq]

    The average over the features of the per-feature variance of a dataset
    of rational rows, with the divisor of the variance left open. *)
Definition qsum (l : list Qc) : Qc := foldl Qcplus 0 l.

Definition qmean (l : list Qc) : Qc := qsum l / Qc_of_Z (Z.of_nat (length l)).

Definition qvariance (ddof : nat) (l : list Qc) : Qc :=
  qsum (map (λ x, (x - qmean l) * (x - qmean l)) l) /
    Qc_of_Z (Z.of_nat (length l - ddof)).

(** Feature [j] of the dataset. *)
Definition feature (qd : list (list Qc)) (j : nat) : list Qc :=
  omap (λ r : list Qc, r !! j) qd.

Definition average_variance (ddof d : nat) (qd : list (list Qc)) : Qc :=
  qmean (map (λ j, qvariance ddof (feature qd j)) (seq 0 d)).

(** ** Means of points *)

(** The arithmetic mean of a list of rows of width [d]. *)
Definition mean (d : nat) (rows : matrix) : vec :=
  vdiv (foldl vadd (zeros d) rows) (of_nat (length rows)).

(** The rows of [data] that the assignment vector [a] gives to cluster
    [i]. *)
Definition members (data : matrix) (a : list nat) (i : nat) : matrix :=
  (filter (λ p, p.2 = i) (zip data a)).*1.

(** ** Concrete inputs *)

(** A one-feature dataset, one integer per row. *)
Definition column (l : list Z) : matrix := map (λ z, [of_Z z]) l.

(** What a float holds, for display: its rational, or nothing for an
    infinity or [nan]. *)
Definition rational (x : num) : option Q :=
  match x with
  | Fin q => Some (this q)
  | _ => None
  end.

Definition tolerance : num := frac 1 10000.

(** A model whose log-likelihood is the same builtin float [z] at every
    pass and whose M-step returns the mixing weights only. *)
Definition constant_ll (z : Z) : Variant :=
  {| e_step := λ _ _, Ret (PyFloat (of_Z z) Builtin, VMat [[of_Z 1]]);
     m_step := λ _ _ _, Ret {["pi" := VVec [of_Z 1]]} |}.

(** ** Vocabulary of the statements *)

(** What the scan holds after the centroids below [j]: no centroid seen is
    closer than [best], and either nothing has been taken yet or [best] is
    the distance of [cid], strictly below every centroid before it. *)
Definition scanned (mu : matrix) (x : vec) (j : nat) (acc : nat * dist) : Prop :=
  (∀ u m, (u < j)%nat → mu !! u = Some m →
     dist_ltb (norm (vsub x m)) acc.2 = false) ∧
  ((acc.1 = 0%nat ∧ acc.2 = dist_inf) ∨
   (∃ m_c, (acc.1 < j)%nat ∧ mu !! acc.1 = Some m_c ∧
      acc.2 = norm (vsub x m_c) ∧
      ∀ u m, (u < acc.1)%nat → mu !! u = Some m →
        dist_ltb acc.2 (norm (vsub x m)) = true)).

(** The lengths numpy fixes when the arrays are made: [mu] has a row per
    cluster and the work arrays are those of lines 27-32. *)
Definition shaped (n k : nat) (st : kstate) : Prop :=
  (k ≤ length (mu_obj st))%nat ∧
  length (zeros_obj st) = k ∧
  length (assignments st) = n ∧
  length (cluster_sizes st) = k ∧
  length (cluster_sums st) = k.

(** The verdict the convergence loop computes for cluster [i]. *)
Definition within (st : kstate) (eps : num) (i : nat) : option bool :=
  m ← mu_obj st !! i;
  p ← deref st (prev_mu st) !! i;
  Some (negb (dist_gtb (norm (vsub m p)) eps)).

(** The two values a distance of a row to itself can take. *)
Definition zero_or_nan (x : num) : Prop := x = Fin 0 ∨ x = NaN.

(** The accumulators of a cluster that has received no point so far: a
    count of zero goes with a sum that is still the zero vector. *)
Definition empty_is_zero (d : nat) (st : kstate) : Prop :=
  ∀ i, cluster_sizes st !! i = Some 0%nat →
       cluster_sums st !! i = Some (zeros d).

(** Finite rows, through their rationals. *)
Definition fins (q : list Qc) : vec := Fin <$> q.

Definition qadd (a b : list Qc) : list Qc := zip_with Qcplus a b.

(** [max_iters] passes of [fit], none of which meets the tolerance: every
    pass runs its two steps to the end and fails the test of line 148. *)
Fixpoint stalls (V : Variant) (max_iters : nat) (self : model)
    (data : matrix) (eps last_ll : pyfloat) : Prop :=
  match max_iters with
  | O => True
  | S n =>
      ∃ self' ll p_z,
        em_step V self data = Ret (self', ll, p_z) ∧
        small_change ll last_ll eps = Ret false ∧
        stalls V n self' data eps ll
  end.

(** What every pass keeps: the shapes, the number of rows of [mu], cluster
    indices below [k] in the assignment vector, and counts that add up to
    one per point and pass. *)
Definition settled (n k rows : nat) (st : kstate) : Prop :=
  shaped n k st ∧
  length (mu_obj st) = rows ∧
  Forall (λ c, c < k)%nat (assignments st) ∧
  sum_list (cluster_sizes st) = (iters st * n)%nat.

(** [n] passes of [fit] that all fail the test of line 148, and the object
    and log-likelihood they lead to. *)
Fixpoint stalls_to (V : Variant) (n : nat) (self : model) (data : matrix)
    (eps last_ll : pyfloat) (self' : model) (last_ll' : pyfloat) : Prop :=
  match n with
  | O => self' = self ∧ last_ll' = last_ll
  | S n =>
      ∃ self1 ll p_z,
        em_step V self data = Ret (self1, ll, p_z) ∧
        small_change ll last_ll eps = Ret false ∧
        stalls_to V n self1 data eps ll self' last_ll'
  end.

(** The [bic] property of the base class and of [CMM] (lines 112-118 and
    201-203); [GMM] inherits the former. *)
Definition bic (self : model) : outcome num := Raise NotImplementedError.

(** The largest finite double, the opposite of [float_min]. *)
Definition float_max : Qc := Qc_of_Z (2 ^ 1024 - 2 ^ 971).

(** The scan over computed distances after the centroids below [j], when
    none of the distances is [nan]: no centroid seen is closer than [best],
    and either nothing has been taken yet or [best] is the distance of
    [cid], strictly below every centroid before it. *)
Definition scanned_by (measure : vec → vec → num) (mu : matrix) (x : vec)
    (j : nat) (acc : nat * num) : Prop :=
  (∀ u m, (u < j)%nat → mu !! u = Some m →
     nltb (measure x m) acc.2 = false) ∧
  ((acc.1 = 0%nat ∧ acc.2 = PInf) ∨
   (∃ m_c, (acc.1 < j)%nat ∧ mu !! acc.1 = Some m_c ∧
      acc.2 = measure x m_c ∧
      ∀ u m, (u < acc.1)%nat → mu !! u = Some m →
        nltb acc.2 (measure x m) = true)).

(** The same without any assumption on the distances: no centroid seen is
    strictly closer than [best], which is still [float ('inf')] with the
    default index 0, or a distance below it. *)
Definition scanned_any_by (measure : vec → vec → num) (mu : matrix) (x : vec)
    (j : nat) (acc : nat * num) : Prop :=
  (∀ u m, (u < j)%nat → mu !! u = Some m →
     nltb (measure x m) acc.2 = false) ∧
  ((acc.1 = 0%nat ∧ acc.2 = PInf) ∨
   (∃ m_c, (acc.1 < j)%nat ∧ mu !! acc.1 = Some m_c ∧
      acc.2 = measure x m_c ∧ nltb acc.2 PInf = true)).

(** A computed distance that orders the centroids of [mu] around [x] as the
    exact distance does. *)
Definition order_faithful (measure : vec → vec → num) (mu : matrix)
    (x : vec) : Prop :=
  (∀ m, m ∈ mu →
     nltb (measure x m) PInf = dist_ltb (norm (vsub x m)) dist_inf) ∧
  (∀ m m', m ∈ mu → m' ∈ mu →
     nltb (measure x m) (measure x m') =
       dist_ltb (norm (vsub x m)) (norm (vsub x m'))).

(** What the two scans hold at the same turn: the same index, and the
    computed and the exact distance of the same centroid. *)
Definition paired (measure : vec → vec → num) (mu : matrix) (x : vec)
    (a : nat * num) (b : nat * dist) : Prop :=
  a.1 = b.1 ∧
  ((a.2 = PInf ∧ b.2 = dist_inf) ∨
   ∃ m, m ∈ mu ∧ a.2 = measure x m ∧ b.2 = norm (vsub x m)).

(** [stalls_to] for the test as computed with the rounding [rnd]. *)
Fixpoint stalls_to_by (rnd : num → num) (V : Variant) (n : nat)
    (self : model) (data : matrix) (eps last_ll : pyfloat) (self' : model)
    (last_ll' : pyfloat) : Prop :=
  match n with
  | O => self' = self ∧ last_ll' = last_ll
  | S n =>
      ∃ self1 ll p_z,
        em_step V self data = Ret (self1, ll, p_z) ∧
        small_change_by rnd ll last_ll eps = Ret false ∧
        stalls_to_by rnd V n self1 data eps ll self' last_ll'
  end.

(** [stalls] for the test as computed with the rounding [rnd]. *)
Fixpoint stalls_by (rnd : num → num) (V : Variant) (max_iters : nat)
    (self : model) (data : matrix) (eps last_ll : pyfloat) : Prop :=
  match max_iters with
  | O => True
  | S n =>
      ∃ self' ll p_z,
        em_step V self data = Ret (self', ll, p_z) ∧
        small_change_by rnd ll last_ll eps = Ret false ∧
        stalls_by rnd V n self' data eps ll
  end.

(** The M-step of [V] never returns the key [attr]. *)
Definition silent (V : Variant) (attr : string) : Prop :=
  ∀ self data p_z new_params,
    m_step self data p_z = Ret new_params → new_params !! attr = None.

(** * Properties *)

(** ** The order on floats *)

Lemma nltb_irrefl (x : num) : nltb x x = false.
Proof.
  destruct x as [a| | |]; simpl; try done.
  apply bool_decide_eq_false. intros H. by destruct (Qclt_not_eq _ _ H).
Qed.

Lemma nltb_trans (x y z : num) :
  nltb x y = true → nltb y z = true → nltb x z = true.
Proof.
  destruct x as [a| | |], y as [b| | |], z as [c| | |]; simpl; try done.
  rewrite !bool_decide_eq_true. apply Qclt_trans.
Qed.

(** [x < y] and [y <= z], the latter read as "[z < y] fails for a [z] that
    is not [nan]". *)
Lemma nltb_le_trans (x y z : num) :
  nltb x y = true → nltb z y = false → is_nan z = false → nltb x z = true.
Proof.
  destruct x as [a| | |], y as [b| | |], z as [c| | |]; simpl; try done.
  rewrite !bool_decide_eq_true, bool_decide_eq_false.
  intros Hab Hcb _. apply Qclt_le_trans with b; [done|].
  by apply Qcnot_lt_le.
Qed.

Lemma not_below_inf (x : num) :
  nltb x PInf = false → is_nan x = false → x = PInf.
Proof. by destruct x. Qed.

(** ** Loops *)

Lemma bind_Ret {A B : Type} (a : A) (f : A → outcome B) :
  (x ← Ret a; f x) = f a.
Proof. reflexivity. Qed.

Lemma for_each_seq_inv {S : Type} (P : nat → S → Prop)
    (body : nat → S → outcome S) (n a : nat) (s : S) :
  P a s →
  (∀ i t, (a ≤ i < a + n)%nat → P i t →
     ∃ t', body i t = Ret t' ∧ P (Datatypes.S i) t') →
  ∃ s', for_each (seq a n) body s = Ret s' ∧ P (a + n)%nat s'.
Proof.
  revert a s. induction n as [|n IH]; intros a s Hs Hstep; simpl.
  - exists s. by rewrite Nat.add_0_r.
  - destruct (Hstep a s) as (t & Ht & HP); [lia|done|].
    rewrite Ht. simpl.
    destruct (IH (Datatypes.S a) t HP) as (s' & Hs' & HP').
    + intros i u Hi. apply Hstep. lia.
    + exists s'. split; [done|]. by replace (a + Datatypes.S n)%nat
        with (Datatypes.S a + n)%nat by lia.
Qed.

Lemma for_range_inv {S : Type} (P : nat → S → Prop)
    (body : nat → S → outcome S) (n : nat) (s : S) :
  P 0%nat s →
  (∀ i t, (i < n)%nat → P i t →
     ∃ t', body i t = Ret t' ∧ P (Datatypes.S i) t') →
  ∃ s', for_range n body s = Ret s' ∧ P n s'.
Proof.
  intros H0 Hstep. unfold for_range.
  destruct (for_each_seq_inv P body n 0 s H0) as (s' & ? & ?); [|by eauto].
  intros i t Hi. apply Hstep. lia.
Qed.

(** ** The assignment step *)

Lemma scan_step_scanned (mu : matrix) (k : nat) (x : vec) (j : nat)
    (acc : nat * dist) :
  (k ≤ length mu)%nat →
  (∀ u m, (u < k)%nat → mu !! u = Some m →
     is_nan (sq (norm (vsub x m))) = false) →
  (j < k)%nat → scanned mu x j acc →
  ∃ acc', scan_step mu x j acc = Ret acc' ∧ scanned mu x (S j) acc'.
Proof.
  intros Hlen Hnan Hj [Hmin Hbest]. unfold scan_step, getitem.
  destruct (lookup_lt_is_Some_2 mu j) as [m Hm]; [lia|]. rewrite Hm. simpl.
  destruct (dist_ltb (norm (vsub x m)) acc.2) eqn:Hlt.
  - eexists. split; [done|]. split; simpl.
    + intros u m' Hu Hm'. destruct (decide (u = j)) as [->|Hne].
      * rewrite Hm in Hm'. injection Hm' as <-. apply nltb_irrefl.
      * destruct (dist_ltb (norm (vsub x m')) (norm (vsub x m))) eqn:E; [|done].
        rewrite <- (Hmin u m'); [|lia|done]. symmetry.
        by apply nltb_trans with (sq (norm (vsub x m))).
    + right. exists m. repeat split; [lia|done|].
      intros u m' Hu Hm'. apply nltb_le_trans with (sq acc.2); [done| |].
      * apply (Hmin u m'); [simpl in Hu; lia|done].
      * apply (Hnan u m'); [simpl in Hu; lia|done].
  - exists acc. split; [done|]. split.
    + intros u m' Hu Hm'. destruct (decide (u = j)) as [->|Hne].
      * rewrite Hm in Hm'. by injection Hm' as <-.
      * apply (Hmin u m'); [lia|done].
    + destruct Hbest as [?|(m_c & ? & ? & ? & ?)]; [by left|].
      right. exists m_c. repeat split; [lia|done..].
Qed.

Lemma closest_spec (mu : matrix) (k : nat) (x : vec) :
  (0 < k)%nat → (k ≤ length mu)%nat →
  (∀ u m, (u < k)%nat → mu !! u = Some m →
     is_nan (sq (norm (vsub x m))) = false) →
  ∃ c m_c, closest mu k x = Ret c ∧ (c < k)%nat ∧ mu !! c = Some m_c ∧
    (∀ u m, (u < k)%nat → mu !! u = Some m →
       dist_ltb (norm (vsub x m)) (norm (vsub x m_c)) = false) ∧
    (∀ u m, (u < c)%nat → mu !! u = Some m →
       dist_ltb (norm (vsub x m_c)) (norm (vsub x m)) = true).
Proof.
  intros Hk Hlen Hnan. unfold closest.
  destruct (for_range_inv (scanned mu x) (scan_step mu x) k (0%nat, dist_inf))
    as ([c best] & Hrun & Hmin & Hbest).
  - split; [intros; lia|by left].
  - intros j acc Hj Hacc. by apply scan_step_scanned with k.
  - rewrite Hrun. simpl in *.
    destruct Hbest as [[-> ->]|(m_c & Hc & Hmc & -> & Hlow)].
    + destruct (lookup_lt_is_Some_2 mu 0) as [m0 Hm0]; [lia|].
      exists 0%nat, m0. repeat split; [done..| |intros; lia].
      intros u m Hu Hm. unfold dist_ltb.
      rewrite (not_below_inf (sq (norm (vsub x m)))),
        (not_below_inf (sq (norm (vsub x m0)))); [done|..].
      * by apply (Hmin 0%nat m0).
      * by apply (Hnan 0%nat m0).
      * by apply (Hmin u m).
      * by apply (Hnan u m).
    + exists c, m_c. by repeat split.
Qed.

(** ** The three loops of a pass *)

Lemma init_state_shaped (data : matrix) (k : nat) (mu : matrix) :
  (k ≤ length mu)%nat → shaped (length data) k (init_state data k mu).
Proof.
  intros Hmu. unfold shaped, init_state, zeros2; simpl.
  by rewrite !length_replicate.
Qed.

(** The scan always ends on an index below [k], whatever the distances. *)
Lemma closest_returns (mu : matrix) (k : nat) (x : vec) :
  (0 < k)%nat → (k ≤ length mu)%nat →
  ∃ c, closest mu k x = Ret c ∧ (c < k)%nat.
Proof.
  intros Hk Hlen. unfold closest.
  destruct (for_range_inv (λ j acc, acc.1 = 0 ∨ acc.1 < j)%nat
              (scan_step mu x) k (0%nat, dist_inf))
    as ([c best] & Hrun & Hc).
  - by left.
  - intros j acc Hj Hacc. unfold scan_step, getitem.
    destruct (lookup_lt_is_Some_2 mu j) as [m Hm]; [lia|]. rewrite Hm. simpl.
    destruct (dist_ltb _ _); eexists; (split; [done|]); simpl; lia.
  - rewrite Hrun. exists c. split; [done|]. simpl in Hc. lia.
Qed.

Lemma assign_point_spec (data : matrix) (k pt : nat) (st : kstate) :
  (0 < k)%nat → shaped (length data) k st → (pt < length data)%nat →
  ∃ x c size sum,
    data !! pt = Some x ∧ closest (mu_obj st) k x = Ret c ∧ (c < k)%nat ∧
    cluster_sizes st !! c = Some size ∧ cluster_sums st !! c = Some sum ∧
    assign_point data k pt st =
      Ret (with_accumulators st (<[pt := c]> (assignments st))
             (<[c := S size]> (cluster_sizes st))
             (<[c := vadd sum x]> (cluster_sums st))).
Proof.
  intros Hk (Hmu & Hz & Ha & Hsz & Hsm) Hpt.
  destruct (lookup_lt_is_Some_2 data pt) as [x Hx]; [done|].
  destruct (closest_returns (mu_obj st) k x) as (c & Hc & Hck); [done..|].
  destruct (lookup_lt_is_Some_2 (cluster_sizes st) c) as [size Hsize]; [lia|].
  destruct (lookup_lt_is_Some_2 (cluster_sums st) c) as [sum Hsum]; [lia|].
  exists x, c, size, sum. repeat split; try done.
  unfold assign_point, getitem, setitem. rewrite Hx. simpl. rewrite Hc. simpl.
  rewrite decide_True by lia. simpl. rewrite Hsize. simpl.
  rewrite decide_True by lia. simpl. rewrite Hsum. simpl.
  by rewrite decide_True by lia.
Qed.

Lemma update_centroid_spec (k i : nat) (n : nat) (st : kstate) :
  shaped n k st → (i < k)%nat →
  ∃ sum size,
    cluster_sums st !! i = Some sum ∧ cluster_sizes st !! i = Some size ∧
    update_centroid i st =
      Ret (with_mu_obj st (<[i := vdiv sum (of_nat size)]> (mu_obj st))).
Proof.
  intros (Hmu & Hz & Ha & Hsz & Hsm) Hi.
  destruct (lookup_lt_is_Some_2 (cluster_sizes st) i) as [size Hsize]; [lia|].
  destruct (lookup_lt_is_Some_2 (cluster_sums st) i) as [sum Hsum]; [lia|].
  exists sum, size. repeat split; try done.
  unfold update_centroid, getitem, setitem. rewrite Hsum. simpl.
  rewrite Hsize. simpl. by rewrite decide_True by lia.
Qed.

Lemma deref_length (n k : nat) (st : kstate) (r : ref) :
  shaped n k st → (k ≤ length (deref st r))%nat.
Proof. intros (Hmu & Hz & _). destruct r; simpl; lia. Qed.

Lemma check_centroid_spec (eps : num) (k i n : nat) (st : kstate) :
  shaped n k st → (i < k)%nat →
  ∃ m p,
    mu_obj st !! i = Some m ∧ deref st (prev_mu st) !! i = Some p ∧
    check_centroid eps i st =
      Ret (with_converged st (negb (dist_gtb (norm (vsub m p)) eps))).
Proof.
  intros Hsh Hi. pose proof (deref_length n k st (prev_mu st) Hsh) as Hp.
  destruct Hsh as (Hmu & _).
  destruct (lookup_lt_is_Some_2 (mu_obj st) i) as [m Hm]; [lia|].
  destruct (lookup_lt_is_Some_2 (deref st (prev_mu st)) i) as [p Hp']; [lia|].
  exists m, p. repeat split; try done.
  unfold check_centroid, getitem. rewrite Hm. simpl. rewrite Hp'. simpl.
  by destruct (dist_gtb _ _).
Qed.

Lemma shaped_with_accumulators (n k : nat) (st : kstate) (pt c size : nat)
    (v : vec) :
  shaped n k st →
  shaped n k (with_accumulators st (<[pt := c]> (assignments st))
                (<[c := size]> (cluster_sizes st))
                (<[c := v]> (cluster_sums st))).
Proof.
  intros (Hmu & Hz & Ha & Hsz & Hsm). unfold shaped; simpl.
  by rewrite !length_insert.
Qed.

(** The loop over the points touches the three accumulators only. *)
Lemma assign_loop_spec (data : matrix) (k : nat) (st : kstate) :
  (0 < k)%nat → shaped (length data) k st →
  ∃ a sizes sums,
    for_range (length data) (assign_point data k) st =
      Ret (with_accumulators st a sizes sums) ∧
    shaped (length data) k (with_accumulators st a sizes sums).
Proof.
  intros Hk Hsh.
  destruct (for_range_inv
    (λ _ t, ∃ a sizes sums, t = with_accumulators st a sizes sums ∧
                            shaped (length data) k t)
    (assign_point data k) (length data) st) as (st' & Hrun & Hst').
  - exists (assignments st), (cluster_sizes st), (cluster_sums st).
    split; [by destruct st|done].
  - intros pt t Hpt (a & sizes & sums & -> & Ht).
    destruct (assign_point_spec data k pt _ Hk Ht Hpt)
      as (x & c & size & sum & _ & _ & _ & _ & _ & Hrun).
    rewrite Hrun. eexists. split; [done|].
    eexists _, _, _. split; [done|].
    by apply (shaped_with_accumulators _ _ (with_accumulators st a sizes sums)).
  - destruct Hst' as (a & sizes & sums & -> & Hsh').
    by exists a, sizes, sums.
Qed.

(** The update loop writes row [i] of [mu] for every [i < k], from the
    accumulators, and nothing else. *)
Lemma update_loop_spec (n k : nat) (st : kstate) :
  shaped n k st →
  ∃ m,
    for_range k update_centroid st = Ret (with_mu_obj st m) ∧
    length m = length (mu_obj st) ∧
    (∀ i sum size, (i < k)%nat → cluster_sums st !! i = Some sum →
       cluster_sizes st !! i = Some size →
       m !! i = Some (vdiv sum (of_nat size))) ∧
    (∀ i, (k ≤ i)%nat → m !! i = mu_obj st !! i).
Proof.
  intros Hsh.
  destruct (for_range_inv
    (λ j t, ∃ m, t = with_mu_obj st m ∧ length m = length (mu_obj st) ∧
       (∀ i sum size, (i < j)%nat → cluster_sums st !! i = Some sum →
          cluster_sizes st !! i = Some size →
          m !! i = Some (vdiv sum (of_nat size))) ∧
       (∀ i, (j ≤ i)%nat → m !! i = mu_obj st !! i))
    update_centroid k st) as (st' & Hrun & m & -> & Hm).
  - exists (mu_obj st). split; [by destruct st|].
    split; [done|]. split; [intros; lia|done].
  - intros j t Hj (m & -> & Hlen & Hlow & Hhigh).
    assert (shaped n k (with_mu_obj st m)) as Hsh'.
    { destruct Hsh as (? & ? & ? & ? & ?). unfold shaped; simpl.
      repeat split; try done. lia. }
    destruct (update_centroid_spec k j n _ Hsh' Hj)
      as (sum & size & Hsum & Hsize & Hrun). simpl in *.
    rewrite Hrun. eexists. split; [done|].
    exists (<[j := vdiv sum (of_nat size)]> m). repeat split.
    + by rewrite length_insert.
    + intros i sum' size' Hi Hsum' Hsize'.
      destruct (decide (i = j)) as [->|Hne].
      * rewrite list_lookup_insert_eq; [congruence|].
        destruct Hsh as (? & _). lia.
      * rewrite list_lookup_insert_ne by done.
        apply Hlow; [lia|done..].
    + intros i Hi. rewrite list_lookup_insert_ne by lia. apply Hhigh. lia.
  - by exists m.
Qed.

(** The convergence loop leaves in [converged] the verdict of the cluster
    it visits last. *)
Lemma check_loop_spec (eps : num) (n k : nat) (st : kstate) :
  shaped n k st → (0 < k)%nat →
  ∃ b,
    within st eps (k - 1) = Some b ∧
    for_range k (check_centroid eps) st = Ret (with_converged st b).
Proof.
  intros Hsh Hk.
  destruct (for_range_inv
    (λ j t, (j = 0%nat ∧ t = st) ∨
            ∃ b, within st eps (j - 1) = Some b ∧ t = with_converged st b)
    (check_centroid eps) k st) as (st' & Hrun & Hst').
  - by left.
  - intros j t Hj Ht.
    assert (shaped n k t ∧ mu_obj t = mu_obj st ∧
            deref t (prev_mu t) = deref st (prev_mu st) ∧
            ∀ b, with_converged t b = with_converged st b) as (Hsh' & Hmu & Hp & Hw).
    { destruct Ht as [[_ ->]|(b & _ & ->)]; [done|]. by destruct st. }
    destruct (check_centroid_spec eps k j n t Hsh' Hj)
      as (m & p & Hm & Hp' & Hcheck).
    rewrite Hcheck. eexists. split; [done|]. right. eexists. split; [|apply Hw].
    unfold within. replace (S j - 1)%nat with j by lia.
    rewrite <- Hmu, Hm. simpl. by rewrite <- Hp, Hp'.
  - destruct Hst' as [[-> _]|(b & Hb & ->)]; [lia|]. by exists b.
Qed.

(** One pass of the [while] loop, stage by stage. *)
Lemma k_means_iter_spec (data : matrix) (k : nat) (eps : num) (st : kstate) :
  (0 < k)%nat → shaped (length data) k st →
  ∃ a sizes sums m b,
    let st1 := with_accumulators (with_iters st (S (iters st))) a sizes sums in
    let st2 := with_mu_obj st1 m in
    for_range (length data) (assign_point data k)
      (with_iters st (S (iters st))) = Ret st1 ∧
    for_range k update_centroid st1 = Ret st2 ∧
    within st2 eps (k - 1) = Some b ∧
    shaped (length data) k st2 ∧
    k_means_iter data k eps st = Ret (with_prev_mu (with_converged st2 b) MuObj).
Proof.
  intros Hk Hsh.
  destruct (assign_loop_spec data k (with_iters st (S (iters st))) Hk)
    as (a & sizes & sums & Hassign & Hsh1); [done|].
  destruct (update_loop_spec _ k _ Hsh1) as (m & Hupdate & Hlen & _).
  assert (shaped (length data) k
            (with_mu_obj (with_accumulators (with_iters st (S (iters st)))
                            a sizes sums) m)) as Hsh2.
  { destruct Hsh1 as (? & ? & ? & ? & ?). unfold shaped; simpl in *.
    repeat split; try done. lia. }
  destruct (check_loop_spec eps _ k _ Hsh2 Hk) as (b & Hb & Hcheck).
  exists a, sizes, sums, m, b. cbv zeta. do 4 (split; [done|]).
  unfold k_means_iter. cbv zeta. rewrite Hassign. simpl. rewrite Hupdate.
  simpl. by rewrite Hcheck.
Qed.

(** ** Distances between a row and itself *)

Lemma nsub_diag (x : num) : zero_or_nan (nsub x x).
Proof.
  destruct x as [a| | |]; [left|by right..].
  unfold nsub; simpl. by rewrite Qcplus_opp_r.
Qed.

Lemma nmul_zero_or_nan (x : num) : zero_or_nan x → zero_or_nan (nmul x x).
Proof.
  intros [->| ->]; [left|by right]. simpl. by rewrite Qcmult_0_l.
Qed.

Lemma nadd_zero_or_nan (x y : num) :
  zero_or_nan x → zero_or_nan y → zero_or_nan (nadd x y).
Proof.
  intros [->| ->] [->| ->]; [left|by right..]. simpl. by rewrite Qcplus_0_l.
Qed.

Lemma foldl_zero_or_nan (l : vec) (acc : num) :
  zero_or_nan acc → Forall zero_or_nan l → zero_or_nan (foldl nadd acc l).
Proof.
  revert acc. induction l as [|x l IH]; intros acc Hacc Hl; [done|].
  inversion Hl; subst. simpl. apply IH; [|done].
  by apply nadd_zero_or_nan.
Qed.

Lemma norm_diag (m : vec) : zero_or_nan (sq (norm (vsub m m))).
Proof.
  unfold norm, vsum, vsub; simpl. apply foldl_zero_or_nan; [by left|].
  induction m as [|x m IH]; simpl; constructor; [|done].
  apply nmul_zero_or_nan, nsub_diag.
Qed.

Lemma norm_diag_fin (m : vec) :
  Forall (λ x, is_fin x = true) m → norm (vsub m m) = Sqrt (Fin 0).
Proof.
  intros Hm. unfold norm. f_equal. unfold vsum, vsub.
  assert (map (λ x, nmul x x) (zip_with nsub m m) = zeros (length m)) as ->.
  { induction Hm as [|x m Hx _ IH]; [done|]. simpl. rewrite IH. f_equal.
    destruct x as [a| | |]; try done. unfold nsub; simpl.
    by rewrite Qcplus_opp_r, Qcmult_0_l. }
  unfold zeros. induction (length m) as [|n IH]; [done|]. simpl.
  by rewrite Qcplus_0_l.
Qed.

Lemma Qc_square_nonneg (x : Qc) : ¬ (x < 0) → ¬ (x * x < 0).
Proof.
  intros Hx. apply Qcle_not_lt. apply Qcnot_lt_le in Hx.
  rewrite <- (Qcmult_0_l x). by apply Qcmult_le_compat_r.
Qed.

(** A distance that is zero or [nan] never exceeds a tolerance that is not
    negative. *)
Lemma dist_gtb_zero_or_nan (a : dist) (eps : num) :
  zero_or_nan (sq a) → nltb eps (Fin 0) = false → dist_gtb a eps = false.
Proof.
  intros [Ha|Ha] Heps; unfold dist_gtb; rewrite Ha; [|done].
  destruct eps as [x| | |]; try done. simpl in Heps.
  apply bool_decide_eq_false in Heps. rewrite decide_False by done.
  simpl. apply bool_decide_eq_false. by apply Qc_square_nonneg.
Qed.

(** Once [prev_mu] names the array of [mu], every cluster is within the
    tolerance. *)
Lemma within_aliased (st : kstate) (eps : num) (i : nat) (m : vec) :
  prev_mu st = MuObj → nltb eps (Fin 0) = false →
  mu_obj st !! i = Some m → within st eps i = Some true.
Proof.
  intros Hp Heps Hm. unfold within. rewrite Hp. simpl. rewrite Hm. simpl.
  by rewrite dist_gtb_zero_or_nan; [|apply norm_diag|].
Qed.

Lemma k_means_loop_converged (fuel : nat) (data : matrix) (k : nat)
    (eps : num) (st : kstate) :
  converged st = true → k_means_loop fuel data k eps st = Ret st.
Proof. intros H. destruct fuel; simpl; by rewrite H. Qed.

Lemma k_means_loop_step (fuel : nat) (data : matrix) (k : nat) (eps : num)
    (st : kstate) :
  converged st = false →
  k_means_loop (S fuel) data k eps st =
    (st' ← k_means_iter data k eps st; k_means_loop fuel data k eps st').
Proof. intros H. simpl. by rewrite H. Qed.

(** ** The write into [mu] *)

(** On a floating-point [mu] the functions that take the dtype are the
    ones written for it. *)
Lemma k_means_iter_in_floating (data : matrix) (k : nat) (eps : num)
    (st : kstate) :
  k_means_iter_in Floating data k eps st = k_means_iter data k eps st.
Proof. reflexivity. Qed.

Lemma k_means_loop_in_floating (fuel : nat) (data : matrix) (k : nat)
    (eps : num) (st : kstate) :
  k_means_loop_in Floating fuel data k eps st =
    k_means_loop fuel data k eps st.
Proof.
  revert st. induction fuel as [|fuel IH]; intros st; [done|].
  simpl. destruct (converged st); [done|].
  rewrite k_means_iter_in_floating.
  destruct (k_means_iter data k eps st); [|done..]. apply IH.
Qed.

Lemma k_means_run_in_floating (fuel : nat) (sample : list nat)
    (data : matrix) (k : nat) (eps : num) (mu : option matrix) :
  k_means_run_in Floating fuel sample data k eps mu =
    k_means_run fuel sample data k eps mu.
Proof.
  unfold k_means_run_in, k_means_run.
  destruct (initial_mu sample data mu); [|done..].
  apply k_means_loop_in_floating.
Qed.

Lemma k_means_in_floating (fuel : nat) (sample : list nat) (data : matrix)
    (k : nat) (eps : num) (mu : option matrix) :
  k_means_in Floating fuel sample data k eps mu =
    k_means fuel sample data k eps mu.
Proof. unfold k_means_in, k_means. by rewrite k_means_run_in_floating. Qed.

Lemma update_centroid_in_spec (dt : dtype) (k i : nat) (n : nat)
    (st : kstate) :
  shaped n k st → (i < k)%nat →
  ∃ sum size,
    cluster_sums st !! i = Some sum ∧ cluster_sizes st !! i = Some size ∧
    update_centroid_in dt i st =
      Ret (with_mu_obj st
             (<[i := store dt (vdiv sum (of_nat size))]> (mu_obj st))).
Proof.
  intros (Hmu & Hz & Ha & Hsz & Hsm) Hi.
  destruct (lookup_lt_is_Some_2 (cluster_sizes st) i) as [size Hsize]; [lia|].
  destruct (lookup_lt_is_Some_2 (cluster_sums st) i) as [sum Hsum]; [lia|].
  exists sum, size. repeat split; try done.
  unfold update_centroid_in, getitem, setitem. rewrite Hsum. simpl.
  rewrite Hsize. simpl. by rewrite decide_True by lia.
Qed.

(** The update loop on an array of any dtype: row [i] of [mu], for every
    [i < k], is the quotient of the accumulators as that array stores it. *)
Lemma update_loop_in_spec (dt : dtype) (n k : nat) (st : kstate) :
  shaped n k st →
  ∃ m,
    for_range k (update_centroid_in dt) st = Ret (with_mu_obj st m) ∧
    length m = length (mu_obj st) ∧
    (∀ i sum size, (i < k)%nat → cluster_sums st !! i = Some sum →
       cluster_sizes st !! i = Some size →
       m !! i = Some (store dt (vdiv sum (of_nat size)))) ∧
    (∀ i, (k ≤ i)%nat → m !! i = mu_obj st !! i).
Proof.
  intros Hsh.
  destruct (for_range_inv
    (λ j t, ∃ m, t = with_mu_obj st m ∧ length m = length (mu_obj st) ∧
       (∀ i sum size, (i < j)%nat → cluster_sums st !! i = Some sum →
          cluster_sizes st !! i = Some size →
          m !! i = Some (store dt (vdiv sum (of_nat size)))) ∧
       (∀ i, (j ≤ i)%nat → m !! i = mu_obj st !! i))
    (update_centroid_in dt) k st) as (st' & Hrun & m & -> & Hm).
  - exists (mu_obj st). split; [by destruct st|].
    split; [done|]. split; [intros; lia|done].
  - intros j t Hj (m & -> & Hlen & Hlow & Hhigh).
    assert (shaped n k (with_mu_obj st m)) as Hsh'.
    { destruct Hsh as (? & ? & ? & ? & ?). unfold shaped; simpl.
      repeat split; try done. lia. }
    destruct (update_centroid_in_spec dt k j n _ Hsh' Hj)
      as (sum & size & Hsum & Hsize & Hrun). simpl in *.
    rewrite Hrun. eexists. split; [done|].
    exists (<[j := store dt (vdiv sum (of_nat size))]> m). repeat split.
    + by rewrite length_insert.
    + intros i sum' size' Hi Hsum' Hsize'.
      destruct (decide (i = j)) as [->|Hne].
      * rewrite list_lookup_insert_eq; [congruence|].
        destruct Hsh as (? & _). lia.
      * rewrite list_lookup_insert_ne by done.
        apply Hlow; [lia|done..].
    + intros i Hi. rewrite list_lookup_insert_ne by lia. apply Hhigh. lia.
  - by exists m.
Qed.

(** One pass on an array of any dtype: the accumulators after the loop over
    the points, and the rows the update then writes. *)
Lemma k_means_iter_in_spec (dt : dtype) (data : matrix) (k : nat)
    (eps : num) (st : kstate) :
  (0 < k)%nat → shaped (length data) k st →
  ∃ a sizes sums st',
    for_range (length data) (assign_point data k)
      (with_iters st (S (iters st))) =
      Ret (with_accumulators (with_iters st (S (iters st))) a sizes sums) ∧
    k_means_iter_in dt data k eps st = Ret st' ∧
    assignments st' = a ∧ cluster_sizes st' = sizes ∧
    cluster_sums st' = sums ∧
    ∀ i sum size, (i < k)%nat → sums !! i = Some sum →
      sizes !! i = Some size →
      mu_obj st' !! i = Some (store dt (vdiv sum (of_nat size))).
Proof.
  intros Hk Hsh.
  set (st0 := with_iters st (S (iters st))).
  assert (shaped (length data) k st0) as Hsh0.
  { destruct Hsh as (? & ? & ? & ? & ?). by unfold shaped. }
  destruct (assign_loop_spec data k st0 Hk Hsh0)
    as (a & sizes & sums & Hassign & Hsh1).
  destruct (update_loop_in_spec dt _ k _ Hsh1)
    as (m & Hupdate & Hlen & Hrows & _).
  assert (shaped (length data) k
            (with_mu_obj (with_accumulators st0 a sizes sums) m)) as Hsh2.
  { destruct Hsh1 as (? & ? & ? & ? & ?). unfold shaped; simpl in *.
    repeat split; try done. lia. }
  destruct (check_loop_spec eps _ k _ Hsh2 Hk) as (b & _ & Hcheck).
  exists a, sizes, sums. eexists. split; [done|]. split.
  { unfold k_means_iter_in. cbv zeta. fold st0.
    by rewrite Hassign, bind_Ret, Hupdate, bind_Ret, Hcheck. }
  by repeat split.
Qed.

(** ** The scan over computed distances *)

Lemma scan_step_by_scanned (measure : vec → vec → num) (mu : matrix)
    (k : nat) (x : vec) (j : nat) (acc : nat * num) :
  (k ≤ length mu)%nat →
  (∀ u m, (u < k)%nat → mu !! u = Some m → is_nan (measure x m) = false) →
  (j < k)%nat → scanned_by measure mu x j acc →
  ∃ acc', scan_step_by measure mu x j acc = Ret acc' ∧
          scanned_by measure mu x (S j) acc'.
Proof.
  intros Hlen Hnan Hj [Hmin Hbest]. unfold scan_step_by, getitem.
  destruct (lookup_lt_is_Some_2 mu j) as [m Hm]; [lia|]. rewrite Hm.
  rewrite bind_Ret. cbv zeta.
  destruct (nltb (measure x m) acc.2) eqn:Hlt.
  - eexists. split; [done|]. split; cbn [fst snd].
    + intros u m' Hu Hm'. destruct (decide (u = j)) as [->|Hne].
      * rewrite Hm in Hm'. injection Hm' as <-. apply nltb_irrefl.
      * destruct (nltb (measure x m') (measure x m)) eqn:E; [|done].
        rewrite <- (Hmin u m'); [|lia|done]. symmetry.
        by apply nltb_trans with (measure x m).
    + right. exists m. split; [lia|]. split; [done|]. split; [done|].
      intros u m' Hu Hm'. apply nltb_le_trans with acc.2; [done| |].
      * apply (Hmin u m'); [lia|done].
      * apply (Hnan u m'); [lia|done].
  - exists acc. split; [done|]. split.
    + intros u m' Hu Hm'. destruct (decide (u = j)) as [->|Hne].
      * rewrite Hm in Hm'. by injection Hm' as <-.
      * apply (Hmin u m'); [lia|done].
    + destruct Hbest as [?|(m_c & ? & ? & ? & ?)]; [by left|].
      right. exists m_c. repeat split; [lia|done..].
Qed.

Lemma closest_by_spec (measure : vec → vec → num) (mu : matrix) (k : nat)
    (x : vec) :
  (0 < k)%nat → (k ≤ length mu)%nat →
  (∀ u m, (u < k)%nat → mu !! u = Some m → is_nan (measure x m) = false) →
  ∃ c m_c, closest_by measure mu k x = Ret c ∧ (c < k)%nat ∧
    mu !! c = Some m_c ∧
    (∀ u m, (u < k)%nat → mu !! u = Some m →
       nltb (measure x m) (measure x m_c) = false) ∧
    (∀ u m, (u < c)%nat → mu !! u = Some m →
       nltb (measure x m_c) (measure x m) = true).
Proof.
  intros Hk Hlen Hnan. unfold closest_by.
  destruct (for_range_inv (scanned_by measure mu x)
              (scan_step_by measure mu x) k (0%nat, PInf))
    as ([c best] & Hrun & Hmin & Hbest).
  - split; [intros; lia|by left].
  - intros j acc Hj Hacc. by apply scan_step_by_scanned with k.
  - rewrite Hrun, bind_Ret. cbn [fst snd] in *.
    destruct Hbest as [[-> ->]|(m_c & Hc & Hmc & -> & Hlow)].
    + destruct (lookup_lt_is_Some_2 mu 0) as [m0 Hm0]; [lia|].
      exists 0%nat, m0. repeat split; [done..| |intros; lia].
      intros u m Hu Hm.
      rewrite (not_below_inf (measure x m)), (not_below_inf (measure x m0));
        [done|..].
      * by apply (Hmin 0%nat m0).
      * by apply (Hnan 0%nat m0).
      * by apply (Hmin u m).
      * by apply (Hnan u m).
    + exists c, m_c. by repeat split.
Qed.

Lemma scan_step_by_scanned_any (measure : vec → vec → num) (mu : matrix)
    (k : nat) (x : vec) (j : nat) (acc : nat * num) :
  (k ≤ length mu)%nat → (j < k)%nat → scanned_any_by measure mu x j acc →
  ∃ acc', scan_step_by measure mu x j acc = Ret acc' ∧
          scanned_any_by measure mu x (S j) acc'.
Proof.
  intros Hlen Hj [Hmin Hbest]. unfold scan_step_by, getitem.
  destruct (lookup_lt_is_Some_2 mu j) as [m Hm]; [lia|]. rewrite Hm.
  rewrite bind_Ret. cbv zeta.
  destruct (nltb (measure x m) acc.2) eqn:Hlt.
  - eexists. split; [done|]. split; cbn [fst snd].
    + intros u m' Hu Hm'. destruct (decide (u = j)) as [->|Hne].
      * rewrite Hm in Hm'. injection Hm' as <-. apply nltb_irrefl.
      * destruct (nltb (measure x m') (measure x m)) eqn:E; [|done].
        rewrite <- (Hmin u m'); [|lia|done]. symmetry.
        by apply nltb_trans with (measure x m).
    + right. exists m. split; [lia|]. split; [done|]. split; [done|].
      destruct Hbest as [[_ Hinf]|(m_c & _ & _ & _ & Hfin)].
      * by rewrite <- Hinf.
      * by apply nltb_trans with acc.2.
  - exists acc. split; [done|]. split.
    + intros u m' Hu Hm'. destruct (decide (u = j)) as [->|Hne].
      * rewrite Hm in Hm'. by injection Hm' as <-.
      * apply (Hmin u m'); [lia|done].
    + destruct Hbest as [?|(m_c & ? & ? & ? & ?)]; [by left|].
      right. exists m_c. repeat split; [lia|done..].
Qed.

(** The scan over computed distances always ends on an index below [k]. *)
Lemma closest_by_returns (measure : vec → vec → num) (mu : matrix) (k : nat)
    (x : vec) :
  (0 < k)%nat → (k ≤ length mu)%nat →
  ∃ c, closest_by measure mu k x = Ret c ∧ (c < k)%nat.
Proof.
  intros Hk Hlen. unfold closest_by.
  destruct (for_range_inv (λ j acc, acc.1 = 0 ∨ acc.1 < j)%nat
              (scan_step_by measure mu x) k (0%nat, PInf))
    as ([c best] & Hrun & Hc).
  - by left.
  - intros j acc Hj Hacc. unfold scan_step_by, getitem.
    destruct (lookup_lt_is_Some_2 mu j) as [m Hm]; [lia|]. rewrite Hm.
    rewrite bind_Ret. cbv zeta.
    destruct (nltb _ _); eexists; (split; [done|]); cbn [fst] in *; lia.
  - rewrite Hrun. exists c. split; [done|]. simpl in Hc. lia.
Qed.

Lemma assign_point_by_spec (measure : vec → vec → num) (data : matrix)
    (k pt : nat) (st : kstate) :
  (0 < k)%nat → shaped (length data) k st → (pt < length data)%nat →
  ∃ x c size sum,
    data !! pt = Some x ∧ closest_by measure (mu_obj st) k x = Ret c ∧
    (c < k)%nat ∧
    cluster_sizes st !! c = Some size ∧ cluster_sums st !! c = Some sum ∧
    assign_point_by measure data k pt st =
      Ret (with_accumulators st (<[pt := c]> (assignments st))
             (<[c := S size]> (cluster_sizes st))
             (<[c := vadd sum x]> (cluster_sums st))).
Proof.
  intros Hk (Hmu & Hz & Ha & Hsz & Hsm) Hpt.
  destruct (lookup_lt_is_Some_2 data pt) as [x Hx]; [done|].
  destruct (closest_by_returns measure (mu_obj st) k x) as (c & Hc & Hck);
    [done..|].
  destruct (lookup_lt_is_Some_2 (cluster_sizes st) c) as [size Hsize]; [lia|].
  destruct (lookup_lt_is_Some_2 (cluster_sums st) c) as [sum Hsum]; [lia|].
  exists x, c, size, sum. repeat split; try done.
  unfold assign_point_by, getitem, setitem. rewrite Hx. simpl. rewrite Hc. simpl.
  rewrite decide_True by lia. simpl. rewrite Hsize. simpl.
  rewrite decide_True by lia. simpl. rewrite Hsum. simpl.
  by rewrite decide_True by lia.
Qed.

(** Two loops that step together end together. *)
Lemma for_each_related {S T : Type} (R : S → T → Prop) (l : list nat)
    (f : nat → S → outcome S) (g : nat → T → outcome T) (s : S) (t : T) :
  R s t →
  (∀ i s t, R s t →
     match f i s, g i t with
     | Ret s', Ret t' => R s' t'
     | Raise e, Raise e' => e = e'
     | Fuel, Fuel => True
     | _, _ => False
     end) →
  match for_each l f s, for_each l g t with
  | Ret s', Ret t' => R s' t'
  | Raise e, Raise e' => e = e'
  | Fuel, Fuel => True
  | _, _ => False
  end.
Proof.
  intros Hst Hstep. revert s t Hst.
  induction l as [|i l IH]; intros s t Hst; [done|].
  simpl. specialize (Hstep i s t Hst).
  destruct (f i s) as [s'| |], (g i t) as [t'| |]; simpl; try done.
  by apply IH.
Qed.

(** Where the computed distances order the centroids as the exact ones do,
    a turn of the scan over computed distances takes the branch the scan
    over exact distances takes. *)
Lemma scan_steps_agree (measure : vec → vec → num) (mu : matrix) (x : vec)
    (u : nat) (a : nat * num) (b : nat * dist) :
  order_faithful measure mu x → paired measure mu x a b →
  match scan_step_by measure mu x u a, scan_step mu x u b with
  | Ret a', Ret b' => paired measure mu x a' b'
  | Raise e, Raise e' => e = e'
  | Fuel, Fuel => True
  | _, _ => False
  end.
Proof.
  intros [Hinf Hord] [Hidx Hbest]. unfold scan_step_by, scan_step, getitem.
  destruct (mu !! u) as [m|] eqn:Hm; simpl; [|done].
  assert (m ∈ mu) as Hin by (by eapply list_elem_of_lookup_2).
  assert (nltb (measure x m) a.2 = dist_ltb (norm (vsub x m)) b.2) as ->.
  { destruct Hbest as [[-> ->]|(m' & Hm' & -> & ->)];
      [by apply Hinf|by apply Hord]. }
  destruct (dist_ltb _ _); simpl; [|done].
  split; [done|]. right. by exists m.
Qed.

(** There the two scans pick the same centroid. *)
Lemma closest_by_faithful (measure : vec → vec → num) (mu : matrix) (k : nat)
    (x : vec) :
  order_faithful measure mu x → closest_by measure mu k x = closest mu k x.
Proof.
  intros Hfaith. unfold closest_by, closest, for_range.
  pose proof (for_each_related (paired measure mu x) (seq 0 k)
    (scan_step_by measure mu x) (scan_step mu x)
    (0%nat, PInf) (0%nat, dist_inf)) as H.
  destruct (for_each _ (scan_step_by _ _ _) _) as [a|e|],
    (for_each _ (scan_step _ _) _) as [b|e'|]; simpl.
  all: destruct H as [];
    [by split; [|left]|by intros; apply scan_steps_agree|by f_equal..].
Qed.

(** So, where no distance is [nan] and the computed distances order the
    centroids as the exact ones do, the centroid the code picks is the
    first at minimum Euclidean distance. *)
Lemma faithful_scan_takes_euclidean_closest (measure : vec → vec → num)
    (mu : matrix) (k : nat) (x : vec) :
  (0 < k)%nat → (k ≤ length mu)%nat → order_faithful measure mu x →
  (∀ u m, (u < k)%nat → mu !! u = Some m →
     is_nan (sq (norm (vsub x m))) = false) →
  ∃ c m_c, closest_by measure mu k x = Ret c ∧ (c < k)%nat ∧
    mu !! c = Some m_c ∧
    (∀ u m, (u < k)%nat → mu !! u = Some m →
       dist_ltb (norm (vsub x m)) (norm (vsub x m_c)) = false) ∧
    (∀ u m, (u < c)%nat → mu !! u = Some m →
       dist_ltb (norm (vsub x m_c)) (norm (vsub x m)) = true).
Proof.
  intros Hk Hlen Hfaith Hnan. rewrite closest_by_faithful by done.
  by apply closest_spec.
Qed.

(** ** The claims on [k_means] *)

(** C7, as the code has it: the assignment step gives a point to a centroid
    whose computed distance no other centroid beats, and every centroid of
    lower index is at a strictly larger computed distance, so that among
    centroids at equal computed distances the lowest index wins. *)
Theorem assignment_takes_first_closest_centroid (measure : vec → vec → num)
    (data : matrix) (k pt : nat) (st : kstate) (x : vec) :
  (0 < k)%nat → shaped (length data) k st → data !! pt = Some x →
  (∀ u m, (u < k)%nat → mu_obj st !! u = Some m →
     is_nan (measure x m) = false) →
  ∃ st' c m_c,
    assign_point_by measure data k pt st = Ret st' ∧
    assignments st' !! pt = Some c ∧
    (c < k)%nat ∧ mu_obj st !! c = Some m_c ∧
    (∀ u m, (u < k)%nat → mu_obj st !! u = Some m →
       nltb (measure x m) (measure x m_c) = false) ∧
    (∀ u m, (u < c)%nat → mu_obj st !! u = Some m →
       nltb (measure x m_c) (measure x m) = true).
Proof.
  intros Hk Hsh Hx Hnan.
  assert (pt < length data)%nat as Hpt by (by eapply lookup_lt_Some).
  destruct (assign_point_by_spec measure data k pt st Hk Hsh Hpt)
    as (x' & c & size & sum & Hx' & Hc & _ & _ & _ & Hrun).
  rewrite Hx in Hx'. injection Hx' as <-.
  destruct Hsh as (Hmu & _ & Ha & _).
  destruct (closest_by_spec measure (mu_obj st) k x Hk Hmu Hnan)
    as (c' & m_c & Hc' & Hck & Hmc & Hmin & Hlow).
  rewrite Hc in Hc'. injection Hc' as <-.
  eexists _, c, m_c. split; [exact Hrun|]. simpl.
  split; [|done]. apply list_lookup_insert_eq. lia.
Qed.

Lemma assignment_takes_first_closest_centroid_witness :
  let measure := float_distance root_of_square in
  ∃ st' c m_c,
    assign_point_by measure (column [0; 3; 10]%Z) 2 1
      (init_state (column [0; 3; 10]%Z) 2 (column [0; 6]%Z)) = Ret st' ∧
    assignments st' !! 1%nat = Some c ∧
    (c < 2)%nat ∧ column [0; 6]%Z !! c = Some m_c ∧
    (∀ u m, (u < 2)%nat → column [0; 6]%Z !! u = Some m →
       nltb (measure [of_Z 3] m) (measure [of_Z 3] m_c) = false) ∧
    (∀ u m, (u < c)%nat → column [0; 6]%Z !! u = Some m →
       nltb (measure [of_Z 3] m_c) (measure [of_Z 3] m) = true).
Proof.
  apply (assignment_takes_first_closest_centroid
           (float_distance root_of_square) (column [0; 3; 10]%Z) 2 1
           (init_state (column [0; 3; 10]%Z) 2 (column [0; 6]%Z)) [of_Z 3]).
  - lia.
  - unfold shaped. simpl. lia.
  - reflexivity.
  - intros u m Hu Hm. destruct u as [|[|u]]; [| |lia];
      injection Hm as <-; reflexivity.
Defined.

(** C7 as stated fails on [data = [[0]]], [k = 2],
    [mu = [[2 ** 700], [2 ** 699]]]: the squares of both differences are
    beyond the largest double, both computed distances are [inf], no
    comparison succeeds and the point keeps the default index 0, while
    centroid 1 is at the smaller Euclidean distance. *)
Lemma overflow_hides_the_closer_centroid :
  let data := column [0]%Z in
  let mu := column [2 ^ 700; 2 ^ 699]%Z in
  ∃ st',
    assign_point_by (float_distance root_of_square) data 2 0
      (init_state data 2 mu) = Ret st' ∧
    assignments st' = [0%nat] ∧
    dist_ltb (norm (vsub [of_Z 0] [of_Z (2 ^ 699)]))
             (norm (vsub [of_Z 0] [of_Z (2 ^ 700)])) = true.
Proof.
  eexists. split; [vm_compute; reflexivity|].
  split; vm_compute; reflexivity.
Qed.

(** The overflow does not depend on how the root is rounded. *)
Example overflow_whatever_the_root (root : Qc → Qc) :
  closest_by (float_distance root) (column [2 ^ 700; 2 ^ 699]%Z) 2 [of_Z 0] =
    Ret 0%nat.
Proof. vm_compute. reflexivity. Qed.

Example tie_goes_to_lower_index :
  closest (column [0; 6]%Z) 2 [of_Z 3] = Ret 0%nat.
Proof. reflexivity. Qed.

(** C1, on the run [data = [[10], [0]]], [k = 2], [mu = [[10], [0]]],
    [eps = 1e-4]: after the update of the first pass cluster 0 is farther
    than [eps] from its previous centroid, cluster 1 is not, the
    convergence loop leaves [converged] true and the run returns after that
    single pass. *)
Theorem convergence_check_keeps_last_verdict :
  let data := column [10; 0]%Z in
  let st0 := with_iters (init_state data 2 (column [10; 0]%Z)) 1 in
  ∃ st2,
    (st1 ← for_range 2 (assign_point data 2) st0;
     for_range 2 update_centroid st1) = Ret st2 ∧
    within st2 tolerance 0 = Some false ∧
    within st2 tolerance 1 = Some true ∧
    for_range 2 (check_centroid tolerance) st2 = Ret (with_converged st2 true) ∧
    (λ st, (converged st, iters st)) <$>
      k_means_run 1 [] data 2 tolerance (Some (column [10; 0]%Z)) =
    Ret (true, 1%nat).
Proof.
  intros data st0. eexists. split; [vm_compute; reflexivity|].
  repeat split; vm_compute; reflexivity.
Qed.

(** C10, as the code has it: every pass ends with [prev_mu] bound to the
    array of [mu]; from then on the convergence loop compares each row with
    itself, the distance being zero on a finite row, and finds it within a
    tolerance that is not negative; so a run with at least one cluster and
    such a tolerance returns after its first or its second pass, whatever
    the data. *)
Theorem aliased_prev_mu_stops_by_second_pass (sample : list nat)
    (data : matrix) (k : nat) (eps : num) (mu : option matrix)
    (mu0 : matrix) (fuel : nat) :
  (0 < k)%nat → initial_mu sample data mu = Ret mu0 →
  (k ≤ length mu0)%nat → nltb eps (Fin 0) = false → (2 ≤ fuel)%nat →
  (∀ st, shaped (length data) k st →
     ∃ st', k_means_iter data k eps st = Ret st' ∧ prev_mu st' = MuObj ∧
            deref st' (prev_mu st') = mu_obj st') ∧
  (∀ st i m, prev_mu st = MuObj → mu_obj st !! i = Some m →
     deref st (prev_mu st) !! i = Some m ∧
     within st eps i = Some true ∧
     (Forall (λ x, is_fin x = true) m → norm (vsub m m) = Sqrt (Fin 0))) ∧
  ∃ st, k_means_run fuel sample data k eps mu = Ret st ∧
        (1 ≤ iters st ≤ 2)%nat.
Proof.
  intros Hk Hmu0 Hlen Heps Hfuel. split; [|split].
  - intros st Hsh.
    destruct (k_means_iter_spec data k eps st Hk Hsh)
      as (a & sizes & sums & m & b & _ & _ & _ & _ & Hrun).
    rewrite Hrun. by eexists.
  - intros st i m Hp Hm. split; [by rewrite Hp|].
    split; [by apply within_aliased with m|apply norm_diag_fin].
  - unfold k_means_run. rewrite Hmu0. simpl.
    destruct fuel as [|[|fuel]]; [lia..|].
    pose proof (init_state_shaped data k mu0 Hlen) as Hsh0.
    destruct (k_means_iter_spec data k eps _ Hk Hsh0)
      as (a & sizes & sums & m & b & _ & _ & _ & Hsh2 & Hrun).
    rewrite k_means_loop_step by done. rewrite Hrun, bind_Ret.
    destruct b.
    + rewrite k_means_loop_converged by done. eexists. split; [done|].
      simpl. lia.
    + rewrite k_means_loop_step by done.
      set (st1 := with_prev_mu _ _).
      assert (shaped (length data) k st1) as Hsh1.
      { destruct Hsh2 as (? & ? & ? & ? & ?). by unfold shaped. }
      destruct (k_means_iter_spec data k eps st1 Hk Hsh1)
        as (a' & sizes' & sums' & m' & b' & _ & _ & Hb' & Hsh2' & Hrun').
      rewrite Hrun', bind_Ret.
      destruct Hsh2' as (Hm' & _). simpl in Hm'.
      destruct (lookup_lt_is_Some_2 m' (k - 1)) as [r Hr]; [lia|].
      rewrite (within_aliased _ eps (k - 1) r) in Hb'; [|done..].
      injection Hb' as <-.
      rewrite k_means_loop_converged by done. eexists. split; [done|].
      simpl. lia.
Qed.

Lemma aliased_prev_mu_stops_by_second_pass_witness :
  let data := column [0; 3; 10]%Z in
  (∀ st, shaped (length data) 2 st →
     ∃ st', k_means_iter data 2 tolerance st = Ret st' ∧ prev_mu st' = MuObj ∧
            deref st' (prev_mu st') = mu_obj st') ∧
  (∀ st i m, prev_mu st = MuObj → mu_obj st !! i = Some m →
     deref st (prev_mu st) !! i = Some m ∧
     within st tolerance i = Some true ∧
     (Forall (λ x, is_fin x = true) m → norm (vsub m m) = Sqrt (Fin 0))) ∧
  ∃ st, k_means_run 2 [] data 2 tolerance (Some (column [0; 1]%Z)) = Ret st ∧
        (1 ≤ iters st ≤ 2)%nat.
Proof.
  apply (aliased_prev_mu_stops_by_second_pass [] (column [0; 3; 10]%Z) 2
           tolerance (Some (column [0; 1]%Z)) (column [0; 1]%Z) 2).
  - lia.
  - reflexivity.
  - simpl. lia.
  - reflexivity.
  - lia.
Defined.

(** C3, on the run [data = [[0], [3], [10]]], [k = 2], [mu = [[0], [1]]],
    [eps = 1e-4]: the run returns after two passes with the assignments
    [0, 0, 1]; the counts stand at [3, 3] for three points, and the
    centroids returned are [1] and [23/3], where the means of the points
    last assigned to the clusters are [3/2] and [10]. *)
Theorem accumulators_keep_earlier_passes :
  let data := column [0; 3; 10]%Z in
  ∃ st,
    k_means_run 2 [] data 2 tolerance (Some (column [0; 1]%Z)) = Ret st ∧
    iters st = 2%nat ∧
    assignments st = [0; 0; 1]%nat ∧
    cluster_sizes st = [3; 3]%nat ∧
    map (map rational) (mu_obj st) = [[Some 1%Q]; [Some (23 # 3)%Q]] ∧
    map rational (mean 1 (members data (assignments st) 0)) = [Some (3 # 2)%Q] ∧
    map rational (mean 1 (members data (assignments st) 1)) = [Some 10%Q].
Proof.
  intros data. eexists. split; [vm_compute; reflexivity|].
  repeat split; vm_compute; reflexivity.
Qed.

Lemma init_state_empty_is_zero (data : matrix) (k : nat) (mu : matrix) :
  empty_is_zero (width data) (init_state data k mu).
Proof.
  intros i Hi. simpl in *. unfold zeros2.
  apply lookup_replicate in Hi as [_ Hi]. by apply lookup_replicate.
Qed.

Lemma vdiv_zeros_zero (d : nat) :
  vdiv (zeros d) (of_nat 0) = replicate d NaN.
Proof.
  induction d as [|d IH]; [done|].
  change (ndiv (Fin 0) (of_nat 0) :: vdiv (zeros d) (of_nat 0) =
          NaN :: replicate d NaN).
  by rewrite IH.
Qed.

Lemma empty_is_zero_assign_loop (data : matrix) (k d : nat) (st st' : kstate) :
  (0 < k)%nat → shaped (length data) k st → empty_is_zero d st →
  for_range (length data) (assign_point data k) st = Ret st' →
  empty_is_zero d st'.
Proof.
  intros Hk Hsh Hez Hrun.
  destruct (for_range_inv
    (λ _ t, shaped (length data) k t ∧ empty_is_zero d t)
    (assign_point data k) (length data) st) as (t & Ht & _ & Hez');
    [done| |by rewrite Hrun in Ht; injection Ht as <-].
  intros pt t Hpt [Hsht Hezt].
  destruct (assign_point_spec data k pt t Hk Hsht Hpt)
    as (x & c & size & sum & _ & _ & Hc & Hsize & Hsum & Hstep).
  rewrite Hstep. eexists. split; [done|]. split.
  - by apply shaped_with_accumulators.
  - intros i. simpl. destruct (decide (i = c)) as [->|Hne].
    + rewrite list_lookup_insert_eq; [done|]. by eapply lookup_lt_Some.
    + rewrite !list_lookup_insert_ne by done. apply Hezt.
Qed.

(** What an array of dtype [dt] holds where [nan] is written: [nan]
    itself in a floating-point array, the integer of the cast in a 64-bit
    integer array. *)
Lemma store_nan (dt : dtype) (d : nat) :
  store dt (replicate d NaN) = replicate d (stored_nan dt).
Proof.
  destruct dt as [|invalid]; [done|].
  induction d as [|d IH]; [done|]. simpl in *. by rewrite IH.
Qed.

(** C4, as the code has it: a pass raises nothing, and a cluster whose
    count is zero when the centroids are recomputed gets, in every
    coordinate of its centroid, [nan] when [mu] is a floating-point array
    and the integer the cast of [nan] yields when [mu] is an integer
    array. *)
Theorem empty_cluster_centroid_becomes_nan (dt : dtype) (data : matrix)
    (k : nat) (eps : num) (st : kstate) :
  (0 < k)%nat → shaped (length data) k st →
  empty_is_zero (width data) st →
  ∃ st', k_means_iter_in dt data k eps st = Ret st' ∧
    ∀ i, (i < k)%nat → cluster_sizes st' !! i = Some 0%nat →
         mu_obj st' !! i = Some (replicate (width data) (stored_nan dt)).
Proof.
  intros Hk Hsh Hez.
  destruct (k_means_iter_in_spec dt data k eps st Hk Hsh)
    as (a & sizes & sums & st' & Hassign & Hrun & _ & Hsizes & Hsums & Hrows).
  exists st'. split; [done|]. intros i Hi Hsize.
  assert (shaped (length data) k (with_iters st (S (iters st)))) as Hsh0.
  { destruct Hsh as (? & ? & ? & ? & ?). by unfold shaped. }
  pose proof (empty_is_zero_assign_loop data k (width data) _ _ Hk Hsh0 Hez
                Hassign) as Hez1.
  rewrite Hsizes in Hsize.
  rewrite (Hrows i (zeros (width data)) 0%nat Hi); [|by apply Hez1|done].
  by rewrite vdiv_zeros_zero, store_nan.
Qed.

Lemma empty_cluster_centroid_becomes_nan_witness :
  let data := column [1; 2]%Z in
  ∃ st', k_means_iter_in Floating data 2 tolerance
           (init_state data 2 (column [1; 100]%Z)) = Ret st' ∧
    ∀ i, (i < 2)%nat → cluster_sizes st' !! i = Some 0%nat →
         mu_obj st' !! i = Some (replicate (width data) NaN).
Proof.
  apply (empty_cluster_centroid_becomes_nan Floating (column [1; 2]%Z) 2
           tolerance (init_state (column [1; 2]%Z) 2 (column [1; 100]%Z))).
  - lia.
  - unfold shaped. simpl. lia.
  - intros i Hi. destruct i as [|[|i]]; [reflexivity..|].
    vm_compute in Hi. discriminate Hi.
Defined.

(** The first pass on the same input with integer arrays, where the cast
    of [nan] gives the most negative 64-bit integer: the first centroid is
    the mean 3/2 truncated, the second is that integer, and no [nan] is to
    be seen. *)
Example empty_cluster_in_integer_array :
  let data := column [1; 2]%Z in
  ∃ st',
    k_means_iter_in (Integer (- 2 ^ 63)) data 2 tolerance
      (init_state data 2 (column [1; 100]%Z)) = Ret st' ∧
    cluster_sizes st' = [2; 0]%nat ∧
    mu_obj st' = column [1; - 2 ^ 63]%Z.
Proof.
  eexists. split; [vm_compute; reflexivity|]. split; reflexivity.
Qed.

(** C4 as stated fails on [data = [[1], [2]]], [k = 2],
    [mu = [[1], [100]]]: both points go to cluster 0, cluster 1 stays
    empty, and the call returns a centroid matrix whose second row is
    [nan]. *)
Lemma empty_cluster_returns_nan :
  ∃ mu a,
    k_means 1 [] (column [1; 2]%Z) 2 tolerance (Some (column [1; 100]%Z)) =
      Ret (mu, a) ∧
    a = [0; 0]%nat ∧ mu !! 1%nat = Some [NaN].
Proof.
  eexists _, _. split; [vm_compute; reflexivity|]. split; reflexivity.
Qed.

(** ** A single cluster *)

Lemma finite_fins (r : vec) :
  Forall (λ x, is_fin x = true) r → ∃ q, r = fins q ∧ length q = length r.
Proof.
  induction 1 as [|x r Hx _ (q & -> & Hlen)]; [by exists []|].
  destruct x as [a| | |]; try done. exists (a :: q). simpl. by rewrite Hlen.
Qed.

Lemma finite_rows (d : nat) (data : matrix) :
  Forall (λ r, length r = d ∧ Forall (λ x, is_fin x = true) r) data →
  ∃ qd, data = fins <$> qd ∧ Forall (λ q, length q = d) qd.
Proof.
  induction 1 as [|r data [Hlen Hr] _ (qd & -> & Hqd)]; [by exists []|].
  destruct (finite_fins r Hr) as (q & -> & Hq).
  exists (q :: qd). split; [done|]. constructor; [congruence|done].
Qed.

Lemma vadd_fins (a b : list Qc) : vadd (fins a) (fins b) = fins (qadd a b).
Proof.
  revert b. induction a as [|x a IH]; intros [|y b]; try done.
  unfold vadd, fins, qadd in *. simpl. by rewrite IH.
Qed.

Lemma zeros_fins (d : nat) : zeros d = fins (replicate d 0).
Proof. unfold zeros, fins. by rewrite fmap_replicate. Qed.

Lemma foldl_vadd_fins (s : list Qc) (qd : list (list Qc)) :
  foldl vadd (fins s) (fins <$> qd) = fins (foldl qadd s qd).
Proof.
  revert s. induction qd as [|q qd IH]; intros s; [done|].
  simpl. by rewrite vadd_fins, IH.
Qed.

Lemma qadd_assoc (a b c : list Qc) : qadd (qadd a b) c = qadd a (qadd b c).
Proof.
  revert b c. induction a as [|x a IH]; intros [|y b] [|z c]; try done.
  unfold qadd in *. simpl. by rewrite IH, Qcplus_assoc.
Qed.

Lemma qadd_zero_r (s : list Qc) : qadd s (replicate (length s) 0) = s.
Proof.
  induction s as [|x s IH]; [done|]. unfold qadd in *. simpl.
  by rewrite IH, Qcplus_0_r.
Qed.

Lemma qadd_diag (s : list Qc) : qadd s s = (λ a, a + a) <$> s.
Proof.
  induction s as [|x s IH]; [done|]. unfold qadd in *. simpl. by rewrite IH.
Qed.

Lemma foldl_qadd_shift (s t : list Qc) (qd : list (list Qc)) :
  foldl qadd (qadd s t) qd = qadd s (foldl qadd t qd).
Proof.
  revert t. induction qd as [|q qd IH]; intros t; [done|].
  simpl. by rewrite qadd_assoc, IH.
Qed.

Lemma foldl_qadd_length (d : nat) (s : list Qc) (qd : list (list Qc)) :
  length s = d → Forall (λ q, length q = d) qd →
  length (foldl qadd s qd) = d.
Proof.
  intros Hs Hqd. revert s Hs. induction Hqd as [|q qd Hq _ IH]; intros s Hs;
    [done|].
  simpl. apply IH. unfold qadd. rewrite length_zip_with. lia.
Qed.

(** A second pass over the same rows doubles the sum. *)
Lemma foldl_qadd_twice (d : nat) (qd : list (list Qc)) :
  Forall (λ q, length q = d) qd →
  let s := foldl qadd (replicate d 0) qd in
  foldl qadd s qd = (λ a, a + a) <$> s.
Proof.
  intros Hqd s.
  assert (length s = d) as Hs.
  { apply foldl_qadd_length; [apply length_replicate|done]. }
  rewrite <- (qadd_zero_r s) at 1. rewrite Hs, foldl_qadd_shift.
  apply qadd_diag.
Qed.

Lemma of_nat_nonzero (n : nat) : (0 < n)%nat → Qc_of_Z (Z.of_nat n) ≠ 0.
Proof. intros Hn. rewrite <- Z2Qc_inj_0, Z2Qc_inj_iff. lia. Qed.

Lemma ndiv_doubled (a : Qc) (n : nat) :
  (0 < n)%nat → ndiv (Fin (a + a)) (of_nat (n + n)) = ndiv (Fin a) (of_nat n).
Proof.
  intros Hn. unfold of_nat, of_Z, ndiv.
  rewrite !decide_False by (apply of_nat_nonzero; lia). f_equal.
  pose proof (of_nat_nonzero n Hn) as HN.
  pose proof (of_nat_nonzero (n + n) ltac:(lia)) as HN2.
  rewrite Nat2Z.inj_add, Z2Qc_inj_add in *.
  set (N := Qc_of_Z (Z.of_nat n)) in *.
  rewrite <- (Qcdiv_mult_l (a / N) (N + N)) by done. f_equal.
  by rewrite Qcmult_plus_distr_r, (Qcmult_comm (a / N) N), Qcmult_div_r.
Qed.

Lemma vdiv_doubled (s : list Qc) (n : nat) :
  (0 < n)%nat →
  vdiv (fins ((λ a, a + a) <$> s)) (of_nat (n + n)) = vdiv (fins s) (of_nat n).
Proof.
  intros Hn. induction s as [|a s IH]; [done|].
  unfold vdiv, fins in *. csimpl. f_equal; [by apply ndiv_doubled|done].
Qed.

Lemma nsub_zero (x : num) : nsub x (Fin 0) = x.
Proof.
  destruct x as [a| | |]; try done. unfold nsub. simpl. f_equal. ring.
Qed.

Lemma vsub_zeros (v : vec) : vsub v (zeros (length v)) = v.
Proof.
  induction v as [|x v IH]; [done|]. unfold vsub, zeros in *. simpl.
  f_equal; [apply nsub_zero|done].
Qed.

(** With one cluster every point joins cluster 0: a pass over the points
    adds their number to its count and their rows to its sum. *)
Lemma assign_loop_single (data : matrix) (st : kstate) (c0 : nat) (s0 : vec) :
  shaped (length data) 1 st →
  cluster_sizes st = [c0] → cluster_sums st = [s0] →
  ∃ a, for_range (length data) (assign_point data 1) st =
         Ret (with_accumulators st a [(c0 + length data)%nat]
                [foldl vadd s0 data]).
Proof.
  intros Hsh Hsize Hsum.
  destruct (for_range_inv
    (λ j t, ∃ a, length a = length data ∧
       t = with_accumulators st a [(c0 + j)%nat] [foldl vadd s0 (take j data)])
    (assign_point data 1) (length data) st) as (t & Hrun & a & _ & ->).
  - exists (assignments st). split; [by destruct Hsh as (_ & _ & ? & _)|].
    rewrite Nat.add_0_r, take_0. simpl. rewrite <- Hsize, <- Hsum.
    by destruct st.
  - intros j t Hj (a & Ha & ->).
    assert (shaped (length data) 1
              (with_accumulators st a [(c0 + j)%nat]
                 [foldl vadd s0 (take j data)])) as Hsh'.
    { destruct Hsh as (? & ? & _). by unfold shaped. }
    destruct (assign_point_spec data 1 j _ ltac:(lia) Hsh' Hj)
      as (x & c & size & sum & Hx & _ & Hc & Hsize' & Hsum' & Hstep).
    assert (c = 0%nat) as -> by lia. simpl in Hsize', Hsum', Hstep.
    injection Hsize' as <-. injection Hsum' as <-.
    rewrite Hstep. eexists. split; [done|].
    exists (<[j := 0%nat]> a). split; [by rewrite length_insert|].
    rewrite (take_S_r _ _ _ Hx), foldl_snoc.
    by replace (c0 + S j)%nat with (S (c0 + j)) by lia.
  - exists a. by rewrite take_ge in Hrun by lia.
Qed.

(** One pass with a single cluster, on a centroid array of any dtype. *)
Lemma single_cluster_iter_in (dt : dtype) (data : matrix) (eps : num)
    (st : kstate) (c0 : nat) (s0 : vec) :
  shaped (length data) 1 st →
  cluster_sizes st = [c0] → cluster_sums st = [s0] →
  let row := store dt (vdiv (foldl vadd s0 data) (of_nat (c0 + length data))) in
  let p := match prev_mu st with
           | MuObj => Some row
           | ZerosObj => zeros_obj st !! 0%nat
           end in
  ∃ a p0 st',
    p = Some p0 ∧
    k_means_iter_in dt data 1 eps st = Ret st' ∧
    shaped (length data) 1 st' ∧
    mu_obj st' = <[0%nat := row]> (mu_obj st) ∧
    zeros_obj st' = zeros_obj st ∧
    prev_mu st' = MuObj ∧
    assignments st' = a ∧
    cluster_sizes st' = [(c0 + length data)%nat] ∧
    cluster_sums st' = [foldl vadd s0 data] ∧
    converged st' = negb (dist_gtb (norm (vsub row p0)) eps) ∧
    iters st' = S (iters st).
Proof.
  intros Hsh Hsize Hsum row p.
  set (st0 := with_iters st (S (iters st))).
  assert (shaped (length data) 1 st0) as Hsh0.
  { destruct Hsh as (? & ? & ? & ? & ?). by unfold shaped. }
  destruct (assign_loop_single data st0 c0 s0 Hsh0 Hsize Hsum) as (a & Hassign).
  set (st1 := with_accumulators st0 a _ _) in Hassign.
  assert (shaped (length data) 1 st1) as Hsh1.
  { destruct (assign_loop_spec data 1 st0 ltac:(lia) Hsh0)
      as (a' & sz' & sm' & Hrun' & Hsh1).
    rewrite Hassign in Hrun'. by injection Hrun' as <- <- <-. }
  destruct (update_loop_in_spec dt _ 1 st1 Hsh1)
    as (m & Hupdate & Hlen & Hrow & Hrest).
  assert (m = <[0%nat := row]> (mu_obj st)) as ->.
  { apply list_eq. intros [|i].
    - rewrite (Hrow 0%nat (foldl vadd s0 data) (c0 + length data)%nat);
        [|lia|done..].
      rewrite list_lookup_insert_eq; [done|]. destruct Hsh as (? & _). lia.
    - rewrite list_lookup_insert_ne by done. apply Hrest. lia. }
  set (st2 := with_mu_obj st1 _) in Hupdate.
  assert (shaped (length data) 1 st2) as Hsh2.
  { destruct Hsh1 as (? & ? & ? & ? & ?). unfold shaped; simpl in *.
    rewrite length_insert. by destruct Hsh as (? & _). }
  destruct (check_loop_spec eps _ 1 st2 Hsh2 ltac:(lia)) as (b & Hb & Hcheck).
  unfold within in Hb. replace (1 - 1)%nat with 0%nat in Hb by done.
  assert (mu_obj st2 !! 0%nat = Some row) as Hrow0.
  { unfold st2. simpl. apply list_lookup_insert_eq.
    destruct Hsh as (? & _). lia. }
  assert (deref st2 (prev_mu st2) !! 0%nat = p) as Hp.
  { subst p. unfold st2. simpl. by destruct (prev_mu st). }
  rewrite Hrow0, Hp in Hb. destruct p as [p0|] eqn:Ep; [|done].
  injection Hb as <-.
  exists a, p0,
    (with_prev_mu
       (with_converged st2 (negb (dist_gtb (norm (vsub row p0)) eps))) MuObj).
  split; [done|]. split; [|split; [|done]].
  2: { destruct Hsh2 as (? & ? & ? & ? & ?). by unfold shaped. }
  unfold k_means_iter_in. cbv zeta. fold st0. rewrite Hassign, bind_Ret.
  rewrite Hupdate, bind_Ret. by rewrite Hcheck.
Qed.

(** One pass with a single cluster on a floating-point [mu]. *)
Lemma single_cluster_iter (data : matrix) (eps : num) (st : kstate)
    (c0 : nat) (s0 : vec) :
  shaped (length data) 1 st →
  cluster_sizes st = [c0] → cluster_sums st = [s0] →
  let row := vdiv (foldl vadd s0 data) (of_nat (c0 + length data)) in
  let p := match prev_mu st with
           | MuObj => Some row
           | ZerosObj => zeros_obj st !! 0%nat
           end in
  ∃ a p0 st',
    p = Some p0 ∧
    k_means_iter data 1 eps st = Ret st' ∧
    shaped (length data) 1 st' ∧
    mu_obj st' = <[0%nat := row]> (mu_obj st) ∧
    zeros_obj st' = zeros_obj st ∧
    prev_mu st' = MuObj ∧
    assignments st' = a ∧
    cluster_sizes st' = [(c0 + length data)%nat] ∧
    cluster_sums st' = [foldl vadd s0 data] ∧
    converged st' = negb (dist_gtb (norm (vsub row p0)) eps) ∧
    iters st' = S (iters st).
Proof. exact (single_cluster_iter_in Floating data eps st c0 s0). Qed.

Lemma width_rows (d : nat) (data : matrix) :
  (0 < length data)%nat → Forall (λ r, length r = d) data → width data = d.
Proof. intros Hn Hd. destruct Hd as [|r data Hr _]; [simpl in Hn; lia|done]. Qed.

Lemma store_length (dt : dtype) (v : vec) : length (store dt v) = length v.
Proof. destruct dt; [done|]. apply length_map. Qed.

Lemma k_means_loop_in_converged (dt : dtype) (fuel : nat) (data : matrix)
    (k : nat) (eps : num) (st : kstate) :
  converged st = true → k_means_loop_in dt fuel data k eps st = Ret st.
Proof. intros H. destruct fuel; simpl; by rewrite H. Qed.

Lemma k_means_loop_in_step (dt : dtype) (fuel : nat) (data : matrix)
    (k : nat) (eps : num) (st : kstate) :
  converged st = false →
  k_means_loop_in dt (S fuel) data k eps st =
    st' ← k_means_iter_in dt data k eps st;
    k_means_loop_in dt fuel data k eps st'.
Proof. intros H. simpl. by rewrite H. Qed.

(** The whole run with a single cluster on finite data: the centroid is the
    mean of the data as the array of [mu] stores it. *)
Lemma single_cluster_run_in (dt : dtype) (sample : list nat) (data : matrix)
    (eps : num) (mu : option matrix) (mu0 : matrix) (fuel d : nat) :
  (0 < length data)%nat →
  Forall (λ r, length r = d ∧ Forall (λ x, is_fin x = true) r) data →
  initial_mu sample data mu = Ret mu0 → (1 ≤ length mu0)%nat →
  nltb eps (Fin 0) = false → (2 ≤ fuel)%nat →
  ∃ st, k_means_run_in dt fuel sample data 1 eps mu = Ret st ∧
        mu_obj st = <[0%nat := store dt (mean d data)]> mu0 ∧
        iters st = if dist_gtb (norm (store dt (mean d data))) eps
                   then 2%nat else 1%nat.
Proof.
  intros Hn Hdata Hmu0 Hlen Heps Hfuel.
  destruct (finite_rows d data Hdata) as (qd & Hqd & Hrows).
  assert (width data = d) as Hw.
  { apply width_rows; [done|]. eapply Forall_impl; [exact Hdata|]. by intros r []. }
  set (s := foldl qadd (replicate d 0) qd).
  assert (foldl vadd (zeros d) data = fins s) as Hs.
  { by rewrite Hqd, zeros_fins, foldl_vadd_fins. }
  assert (length (store dt (mean d data)) = d) as Hmean.
  { rewrite store_length. unfold mean, vdiv. rewrite Hs. unfold fins.
    rewrite length_map, length_fmap.
    apply foldl_qadd_length; [apply length_replicate|done]. }
  unfold k_means_run_in. rewrite Hmu0, bind_Ret.
  destruct fuel as [|[|fuel]]; [lia..|].
  set (st0 := init_state data 1 mu0).
  pose proof (init_state_shaped data 1 mu0 Hlen) as Hsh0. fold st0 in Hsh0.
  destruct (single_cluster_iter_in dt data eps st0 0 (zeros d) Hsh0)
    as (a1 & p1 & st1 & Hp1 & Hrun1 & Hsh1 & Hmu1 & Hz1 & Hprev1 & _ & Hsz1 &
        Hsm1 & Hconv1 & Hit1); [done|by unfold st0; simpl; rewrite Hw|].
  simpl in Hp1. rewrite Hw in Hp1. injection Hp1 as <-.
  change (vdiv (foldl vadd (zeros d) data) (of_nat (0 + length data)))
    with (mean d data) in Hmu1, Hconv1.
  rewrite <- Hmean in Hconv1 at 2. rewrite vsub_zeros in Hconv1.
  rewrite k_means_loop_in_step by done. rewrite Hrun1, bind_Ret.
  destruct (dist_gtb (norm (store dt (mean d data))) eps) eqn:Hfar;
    simpl in Hconv1.
  - rewrite k_means_loop_in_step by done.
    destruct (single_cluster_iter_in dt data eps st1 (0 + length data)
                (foldl vadd (zeros d) data) Hsh1 Hsz1 Hsm1)
      as (a2 & p2 & st2 & Hp2 & Hrun2 & _ & Hmu2 & _ & _ & _ & _ & _ &
          Hconv2 & Hit2).
    rewrite Hprev1 in Hp2. injection Hp2 as <-.
    rewrite dist_gtb_zero_or_nan in Hconv2; [|apply norm_diag|done].
    rewrite Hrun2, bind_Ret, k_means_loop_in_converged by done.
    exists st2. split; [done|]. split; [|by rewrite Hit2, Hit1].
    rewrite Hmu2, Hmu1, list_insert_insert_eq. f_equal.
    assert (foldl vadd (fins s) data = fins ((λ a, a + a) <$> s)) as Hss.
    { rewrite Hqd, foldl_vadd_fins. f_equal.
      apply (foldl_qadd_twice d qd Hrows). }
    rewrite Hs, Hss. simpl. rewrite vdiv_doubled by done.
    unfold mean. by rewrite Hs.
  - rewrite k_means_loop_in_converged by done.
    exists st1. split; [done|]. split; [done|]. by rewrite Hit1.
Qed.

(** The whole run with a single cluster on a floating-point [mu]. *)
Lemma single_cluster_run (sample : list nat) (data : matrix) (eps : num)
    (mu : option matrix) (mu0 : matrix) (fuel d : nat) :
  (0 < length data)%nat →
  Forall (λ r, length r = d ∧ Forall (λ x, is_fin x = true) r) data →
  initial_mu sample data mu = Ret mu0 → (1 ≤ length mu0)%nat →
  nltb eps (Fin 0) = false → (2 ≤ fuel)%nat →
  ∃ st, k_means_run fuel sample data 1 eps mu = Ret st ∧
        mu_obj st = <[0%nat := mean d data]> mu0 ∧
        iters st = if dist_gtb (norm (mean d data)) eps then 2%nat else 1%nat.
Proof.
  rewrite <- k_means_run_in_floating.
  exact (single_cluster_run_in Floating sample data eps mu mu0 fuel d).
Qed.



(** On the integer array [[0], [3]] with [mu=None] and the row 1 drawn, the
    centroid returned is [[1]], the mean 3/2 truncated; on the same numbers
    as floats it is [[3/2]]. *)
Example single_cluster_in_integer_array :
  let data := column [0; 3]%Z in
  k_means_in (Integer (- 2 ^ 63)) 2 [1%nat] data 1 tolerance None =
    Ret (column [1]%Z, [0; 0]%nat) ∧
  ∃ mu, k_means_in Floating 2 [1%nat] data 1 tolerance None =
          Ret (mu, [0; 0]%nat) ∧
        map (map rational) mu = [[Some (3 # 2)%Q]].
Proof.
  split; [vm_compute; reflexivity|].
  eexists. split; vm_compute; reflexivity.
Qed.


(** ** The claims on the mixture models *)

Lemma em_step_inv (V : Variant) (self self' : model) (data : matrix)
    (ll : pyfloat) (p_z : pyval) :
  em_step V self data = Ret (self', ll, p_z) →
  e_step self data = Ret (ll, p_z) ∧
  ∃ new_params,
    m_step self data p_z = Ret new_params ∧
    self' = update_params self new_params.
Proof.
  unfold em_step.
  destruct (e_step self data) as [[ll' p_z']| |] eqn:He; [|done..].
  simpl. destruct (m_step self data p_z') as [new| |] eqn:Hm; [|done..].
  simpl. intros [= <- <- <-]. split; [done|]. by exists new.
Qed.

(** C8: a pass of [fit] stores every entry of the mapping its M-step
    returns, and a key the M-step does not return keeps the value it
    had. *)
Theorem m_step_result_is_merged (V : Variant) (self self' : model)
    (data : matrix) (ll : pyfloat) (p_z : pyval) :
  em_step V self data = Ret (self', ll, p_z) →
  ∃ new_params,
    m_step self data p_z = Ret new_params ∧
    (∀ key v, new_params !! key = Some v → params self' !! key = Some v) ∧
    (∀ key, new_params !! key = None →
       params self' !! key = params self !! key).
Proof.
  intros Hstep.
  destruct (em_step_inv V self self' data ll p_z Hstep)
    as (_ & new & Hm & ->).
  exists new. split; [done|]. simpl. split.
  - intros key v Hkey. by apply lookup_union_Some_l.
  - intros key Hkey. by apply lookup_union_r.
Qed.

Lemma m_step_result_is_merged_witness :
  let self := GMM_init 1 [of_Z 1] [[of_Z 7]] in
  let self' := update_params self {["pi" := VVec [of_Z 1]]} in
  ∃ new_params,
    @m_step (constant_ll (-1)) self [] (VMat [[of_Z 1]]) = Ret new_params ∧
    (∀ key v, new_params !! key = Some v → params self' !! key = Some v) ∧
    (∀ key, new_params !! key = None →
       params self' !! key = params self !! key).
Proof.
  apply (m_step_result_is_merged (constant_ll (-1))
           (GMM_init 1 [of_Z 1] [[of_Z 7]])
           (update_params (GMM_init 1 [of_Z 1] [[of_Z 7]])
              {["pi" := VVec [of_Z 1]]})
           [] (PyFloat (of_Z (-1)) Builtin) (VMat [[of_Z 1]])).
  reflexivity.
Defined.

Example untouched_key_survives :
  ∃ self' ll p_z,
    em_step (constant_ll (-1)) (GMM_init 1 [of_Z 1] [[of_Z 7]]) [] =
      Ret (self', ll, p_z) ∧
    params self' !! "mu" = Some (VMat [[of_Z 7]]).
Proof. eexists _, _, _. split; reflexivity. Qed.

Lemma fit_loop_stalls (V : Variant) (data : matrix) (eps : pyfloat)
    (max_iters n : nat) (self : model) (last_ll : pyfloat) (i : nat) :
  (i + n)%nat = max_iters → stalls V n self data eps last_ll →
  ∃ self',
    fit_loop V (S n) self data eps max_iters last_ll i = Ret (self', false) ∧
    inst self' = inst self.
Proof.
  revert self last_ll i.
  induction n as [|n IH]; intros self last_ll i Hi Hstall.
  - exists self. split; [|done]. simpl. by rewrite decide_True by lia.
  - destruct Hstall as (self1 & ll & p_z & Hstep & Hchange & Hstall).
    destruct (IH self1 ll (S i)) as (self' & Hloop & Hinst); [lia|done|].
    exists self'. split.
    + change (fit_loop V (S (S n)) self data eps max_iters last_ll i)
        with (if decide (max_iters < S i)%nat then Ret (self, false)
              else r ← em_step V self data;
                   c ← small_change r.1.2 last_ll eps;
                   if c : bool
                   then Ret (record_fit r.1.1 data r.1.2 r.2, true)
                   else fit_loop V (S n) r.1.1 data eps max_iters r.1.2 (S i)).
      rewrite decide_False by lia. rewrite Hstep. simpl.
      rewrite Hchange. exact Hloop.
    + rewrite Hinst.
      destruct (em_step_inv V self self1 data ll p_z Hstep)
        as (_ & new & _ & ->). done.
Qed.

Lemma fit_loop_by_unfold (rnd : num → num) (V : Variant) (fuel : nat)
    (self : model) (data : matrix) (eps : pyfloat) (max_iters : nat)
    (last_ll : pyfloat) (i : nat) :
  fit_loop_by rnd V (S fuel) self data eps max_iters last_ll i =
    if decide (max_iters < S i)%nat then Ret (self, false)
    else r ← em_step V self data;
         c ← small_change_by rnd r.1.2 last_ll eps;
         if c : bool then Ret (record_fit r.1.1 data r.1.2 r.2, true)
         else fit_loop_by rnd V fuel r.1.1 data eps max_iters r.1.2 (S i).
Proof. reflexivity. Qed.

(** A run of [max_iters] passes that all fail the computed test returns
    [False], leaves the instance dictionary as it was, and adds to the
    parameters the keys its M-steps returned only. *)
Lemma fit_loop_by_stalls (rnd : num → num) (V : Variant) (data : matrix)
    (eps : pyfloat) (max_iters n : nat) (self : model) (last_ll : pyfloat)
    (i : nat) :
  (i + n)%nat = max_iters → stalls_by rnd V n self data eps last_ll →
  ∃ self',
    fit_loop_by rnd V (S n) self data eps max_iters last_ll i =
      Ret (self', false) ∧
    inst self' = inst self ∧
    ∀ attr, silent V attr → params self' !! attr = params self !! attr.
Proof.
  revert self last_ll i.
  induction n as [|n IH]; intros self last_ll i Hi Hstall.
  - exists self. split; [|done]. simpl. by rewrite decide_True by lia.
  - destruct Hstall as (self1 & ll & p_z & Hstep & Hchange & Hstall).
    destruct (IH self1 ll (S i)) as (self' & Hloop & Hinst & Hpar);
      [lia|done|].
    destruct (em_step_inv V self self1 data ll p_z Hstep)
      as (_ & new & Hm & ->).
    exists self'. split; [|split].
    + rewrite fit_loop_by_unfold, decide_False by lia.
      rewrite Hstep, bind_Ret. cbn [fst snd].
      by rewrite Hchange, bind_Ret.
    + by rewrite Hinst.
    + intros attr Hattr. rewrite (Hpar attr Hattr). simpl.
      apply lookup_union_r. by eapply Hattr.
Qed.




(** As the file stands every variant is a stub, and a first pass raises. *)
Example stub_variants_raise (self : model) (data : matrix) (eps : pyfloat)
    (max_iters : nat) :
  fit GMM_variant self data eps (S max_iters) = Raise NotImplementedError ∧
  fit CMM_variant self data eps (S max_iters) = Raise NotImplementedError.
Proof. split; reflexivity. Qed.

Example fit_max_iters_zero (V : Variant) (self : model) (data : matrix)
    (eps : pyfloat) :
  fit V self data eps 0 = Ret (self, false).
Proof. reflexivity. Qed.

Example fit_failure_leaves_n_train_unset :
  (r ← fit (constant_ll (-1)) (GMM_init 1 [of_Z 1] [[of_Z 7]]) [[of_Z 0]]
         (PyFloat tolerance Builtin) 1;
   getattr r.1 "n_train") = Raise AttributeError.
Proof. vm_compute. reflexivity. Qed.

Example fit_success_sets_n_train :
  (r ← fit (constant_ll (-1)) (GMM_init 1 [of_Z 1] [[of_Z 7]]) [[of_Z 0]]
         (PyFloat tolerance Builtin) 2;
   v ← getattr r.1 "n_train"; Ret (r.2, v)) = Ret (true, VInt 1).
Proof. vm_compute. reflexivity. Qed.

Lemma nltb_inf_l (e : num) : nltb PInf e = false.
Proof. by destruct e. Qed.

Lemma nltb_nan_l (e : num) : nltb NaN e = false.
Proof. by destruct e. Qed.

(** Numpy's quotient by a zero [ll] is an infinity or [nan]: its absolute
    value is below nothing. *)
Lemma zero_quotient_not_small (y e : num) :
  nltb (nabs (ndiv (nsub (Fin 0) y) (Fin 0))) e = false.
Proof.
  destruct y as [b| | |]; unfold nsub, nopp, nadd, ndiv.
  - rewrite decide_True by done.
    destruct (_ ?= _); cbn [nabs]; auto using nltb_inf_l, nltb_nan_l.
  - destruct (decide _); cbn [nabs]; apply nltb_inf_l.
  - destruct (decide _); cbn [nabs]; apply nltb_inf_l.
  - apply nltb_nan_l.
Qed.

(** C5, as the code has it: the test of line 148 divides by [ll] without
    looking at it. When [ll] is zero the division raises
    [ZeroDivisionError] between builtin floats and gives an infinity or
    [nan] as soon as a numpy float takes part, in which case the test is
    false whatever [last_ll] and [eps] are; the absolute change is never
    consulted. *)
Theorem zero_log_likelihood_divides_by_zero (ll last_ll eps : pyfloat) :
  fval ll = Fin 0 →
  small_change ll last_ll eps =
    match join (fkind ll) (fkind last_ll) with
    | Builtin => Raise ZeroDivisionError
    | Numpy64 => Ret false
    end.
Proof.
  destruct ll as [x kl], last_ll as [y kp], eps as [e ke]. simpl.
  intros ->. unfold small_change, fdiv, fsub, fltb, fabs.
  cbn [fval fkind].
  destruct kl, kp; cbn [join]; rewrite ?decide_True by done;
    try done; cbn [mbind outcome_bind fval];
    by rewrite zero_quotient_not_small.
Qed.

Lemma zero_log_likelihood_divides_by_zero_witness :
  small_change (PyFloat (Fin 0) Builtin) (PyFloat (Fin 0) Builtin)
    (PyFloat tolerance Builtin) = Raise ZeroDivisionError ∧
  small_change (PyFloat (Fin 0) Builtin) float_min
    (PyFloat tolerance Builtin) = Ret false.
Proof.
  split.
  - apply (zero_log_likelihood_divides_by_zero (PyFloat (Fin 0) Builtin)
             (PyFloat (Fin 0) Builtin) (PyFloat tolerance Builtin)).
    reflexivity.
  - apply (zero_log_likelihood_divides_by_zero (PyFloat (Fin 0) Builtin)
             float_min (PyFloat tolerance Builtin)).
    reflexivity.
Defined.

(** C5 as stated fails on a model whose log-likelihood is the builtin
    float [0.0] at every pass: the second pass of [fit] divides zero by
    zero and the call ends in [ZeroDivisionError], though the absolute
    change is zero. *)
Lemma zero_log_likelihood_raises :
  fit (constant_ll 0) (MixtureModel_init 2 [frac 1 2; frac 1 2]) [[of_Z 0]]
    (PyFloat tolerance Builtin) 100 = Raise ZeroDivisionError.
Proof. vm_compute. reflexivity. Qed.

Lemma vsum_fins (l : list Qc) : vsum (fins l) = Fin (qsum l).
Proof.
  unfold vsum, qsum. generalize (0 : Qc).
  induction l as [|x l IH]; intros acc; [done|]. apply IH.
Qed.

Lemma np_mean_fins (l : list Qc) :
  (0 < length l)%nat → np_mean (fins l) = Fin (qmean l).
Proof.
  intros Hl. unfold np_mean, qmean. rewrite vsum_fins.
  unfold fins. rewrite length_fmap. unfold ndiv, of_nat, of_Z.
  by rewrite decide_False by by apply of_nat_nonzero.
Qed.

Lemma present_fins (l : list Qc) : present (fins l) = fins l.
Proof.
  induction l as [|x l IH]; [done|].
  unfold present, fins in *. csimpl. rewrite filter_cons_True by done.
  by rewrite IH.
Qed.

Lemma variance_fins (ddof : nat) (l : list Qc) :
  (ddof < length l)%nat →
  variance ddof (fins l) = Fin (qvariance ddof l).
Proof.
  intros Hl. unfold variance, qvariance.
  assert (length (fins l) = length l) as Hlen by apply length_fmap.
  rewrite Hlen, decide_False by lia. cbv zeta.
  rewrite np_mean_fins by lia.
  assert (map (λ x, nmul (nsub x (Fin (qmean l))) (nsub x (Fin (qmean l))))
            (fins l) =
          fins (map (λ x, (x - qmean l) * (x - qmean l)) l)) as ->.
  { generalize (qmean l). intros m. clear Hl Hlen.
    induction l as [|x l IH]; [done|]. unfold fins in *. csimpl.
    by rewrite IH. }
  rewrite vsum_fins. unfold ndiv, of_nat, of_Z.
  by rewrite decide_False by (apply of_nat_nonzero; lia).
Qed.

(** The columns of the table are the features of the dataset. *)
Lemma columns_fins (d : nat) (qd : list (list Qc)) :
  (0 < length qd)%nat → Forall (λ r, length r = d) qd →
  columns (fins <$> qd) = map (λ j, fins (feature qd j)) (seq 0 d).
Proof.
  intros Hn Hd. unfold columns.
  assert (width (fins <$> qd) = d) as ->.
  { destruct Hd as [|r qd' Hr _]; [simpl in Hn; lia|].
    csimpl. rewrite <- Hr. apply length_fmap. }
  apply map_ext. intros j. unfold feature. clear Hn Hd.
  induction qd as [|r qd IH]; [done|]. csimpl.
  unfold fins at 1. rewrite list_lookup_fmap.
  destruct (r !! j); csimpl; by rewrite IH.
Qed.

Lemma feature_length (d j : nat) (qd : list (list Qc)) :
  Forall (λ r, length r = d) qd → (j < d)%nat →
  length (feature qd j) = length qd.
Proof.
  intros Hd Hj. unfold feature.
  induction Hd as [|r qd Hr _ IH]; [done|]. csimpl.
  destruct (lookup_lt_is_Some_2 r j) as [x ->]; [lia|]. simpl. by rewrite IH.
Qed.

(** On a table without [nan] nor infinity that has more rows than [ddof],
    [data.var (0)] is the list of the variances of the features. *)
Lemma var0_fins (c : container) (d : nat) (qd : list (list Qc)) :
  (ddof c < length qd)%nat → Forall (λ r, length r = d) qd →
  var0 c (fins <$> qd) =
    fins (map (λ j, qvariance (ddof c) (feature qd j)) (seq 0 d)).
Proof.
  intros Hn Hd.
  unfold var0. destruct c; rewrite (columns_fins d) by (done || lia);
    unfold fins at 2; change (Fin <$> ?l) with (map Fin l);
    rewrite !map_map; apply map_ext_in; intros j Hj;
    apply in_seq in Hj.
  - rewrite present_fins. apply variance_fins.
    rewrite (feature_length d) by (done || lia). exact Hn.
  - apply variance_fins.
    rewrite (feature_length d) by (done || lia). exact Hn.
Qed.

Lemma mean_var0_fins (c : container) (d : nat) (qd : list (list Qc)) :
  (0 < d)%nat → (ddof c < length qd)%nat → Forall (λ r, length r = d) qd →
  mean_var0 c (fins <$> qd) = Fin (average_variance (ddof c) d qd).
Proof.
  intros Hd0 Hn Hd. unfold mean_var0, average_variance.
  assert (0 < length (map (λ j, qvariance (ddof c) (feature qd j)) (seq 0 d)))%nat
    as Hlen by (by rewrite length_map, length_seq).
  destruct c; rewrite (var0_fins _ d) by done.
  - rewrite present_fins. by apply np_mean_fins.
  - by apply np_mean_fins.
Qed.



(** On the rows [[1, 2]] and [[3, 6]] the variances of the two features
    are 2 and 8 in a DataFrame and 1 and 4 in an array: [sigsq] holds 5,
    or 5/2. *)
Example GMM_sigsq_on_two_rows :
  let data := [[of_Z 1; of_Z 2]; [of_Z 3; of_Z 6]] in
  map rational (var0 DataFrame data) = [Some 2%Q; Some 8%Q] ∧
  rational (mean_var0 DataFrame data) = Some 5%Q ∧
  map rational (var0 NdArray data) = [Some 1%Q; Some 4%Q] ∧
  rational (mean_var0 NdArray data) = Some (5 # 2)%Q.
Proof. repeat split; vm_compute; reflexivity. Qed.

(** A missing value: in the DataFrame [[1, 2], [3, nan]] the second column
    has one value and no variance, which the mean over the features
    leaves out, so that [sigsq] holds the variance 2 of the first column;
    in an array the [nan] reaches [sigsq]. *)
Example GMM_sigsq_with_missing_value :
  let data := [[of_Z 1; of_Z 2]; [of_Z 3; NaN]] in
  map rational (var0 DataFrame data) = [Some 2%Q; None] ∧
  rational (mean_var0 DataFrame data) = Some 2%Q ∧
  mean_var0 NdArray data = NaN.
Proof. repeat split; vm_compute; reflexivity. Qed.

(** ** A negative tolerance *)

Lemma vsub_fins (a b : list Qc) :
  vsub (fins a) (fins b) = fins (zip_with (λ x y, x + - y) a b).
Proof.
  revert b. induction a as [|x a IH]; intros [|y b]; try done.
  unfold vsub, fins in *. csimpl. by rewrite IH.
Qed.

Lemma vdiv_fins (s : list Qc) (n : nat) :
  (0 < n)%nat →
  vdiv (fins s) (of_nat n) = fins ((λ a, a / Qc_of_Z (Z.of_nat n)) <$> s).
Proof.
  intros Hn. induction s as [|a s IH]; [done|].
  unfold vdiv, fins in *. csimpl. rewrite <- IH. f_equal.
  unfold ndiv, of_nat, of_Z. by rewrite decide_False by by apply of_nat_nonzero.
Qed.

Lemma foldl_nadd_fins (acc : Qc) (l : list Qc) :
  foldl nadd (Fin acc) (fins l) = Fin (foldl Qcplus acc l).
Proof. revert acc. induction l as [|x l IH]; intros acc; [done|]. apply IH. Qed.

Lemma norm_fins (a : list Qc) : ∃ r, norm (fins a) = Sqrt (Fin r).
Proof.
  exists (foldl Qcplus 0 ((λ x, x * x) <$> a)). unfold norm, vsum. f_equal.
  rewrite <- foldl_nadd_fins. f_equal.
  induction a as [|x a IH]; [done|]. unfold fins in *. csimpl. by rewrite IH.
Qed.

(** A finite distance exceeds every negative tolerance. *)
Lemma dist_gtb_negative (r x : Qc) : x < 0 → dist_gtb (Sqrt (Fin r)) (Fin x) = true.
Proof. intros Hx. unfold dist_gtb. simpl. by rewrite decide_True. Qed.

(** With one cluster, finite data and a negative tolerance, no pass ever
    sets [converged]. *)
Lemma negative_tolerance_loops (qd : list (list Qc)) (x : Qc) (fuel : nat)
    (st : kstate) (c0 : nat) (s0 z : list Qc) :
  let data := fins <$> qd in
  (0 < length data)%nat → x < 0 →
  shaped (length data) 1 st →
  cluster_sizes st = [c0] → cluster_sums st = [fins s0] →
  zeros_obj st !! 0%nat = Some (fins z) →
  converged st = false →
  k_means_loop fuel data 1 (Fin x) st = Fuel.
Proof.
  intros data Hn Hx. revert st c0 s0.
  induction fuel as [|fuel IH]; intros st c0 s0 Hsh Hsz Hsm Hz Hconv.
  - simpl. by rewrite Hconv.
  - rewrite k_means_loop_step by done.
    destruct (single_cluster_iter data (Fin x) st c0 (fins s0) Hsh Hsz Hsm)
      as (a & p0 & st' & Hp & Hrun & Hsh' & _ & Hz' & _ & _ & Hsz' & Hsm' &
          Hconv' & _).
    rewrite Hrun, bind_Ret.
    unfold data in Hsm', Hconv', Hp, Hn.
    rewrite foldl_vadd_fins in Hsm', Hconv', Hp.
    rewrite vdiv_fins in Hconv', Hp by lia.
    apply (IH st' _ _ Hsh' Hsz' Hsm'); [by rewrite Hz'|].
    rewrite Hconv'.
    assert (∃ w, p0 = fins w) as (w & ->).
    { destruct (prev_mu st); [|rewrite Hz in Hp]; injection Hp as <-; eauto. }
    rewrite vsub_fins.
    destruct (norm_fins (zip_with (λ x y, x + - y)
      ((λ a, a / Qc_of_Z (Z.of_nat (c0 + length (fins <$> qd)))) <$>
         foldl qadd s0 qd) w)) as (r & ->).
    by rewrite dist_gtb_negative.
Qed.

(** C10 as stated fails for a negative tolerance: with [eps = -1] on
    [data = [[1]]], [k = 1], [mu = [[1]]] the only cluster is never empty,
    the distance zero exceeds [eps] at every pass, and no amount of fuel
    lets the loop return. *)
Lemma negative_tolerance_never_returns :
  ¬ ∃ fuel st,
      k_means_run fuel [] (column [1]%Z) 1 (of_Z (-1)) (Some (column [1]%Z)) =
        Ret st.
Proof.
  intros (fuel & st & Hrun).
  change (k_means_loop fuel (column [1]%Z) 1 (of_Z (-1))
            (init_state (column [1]%Z) 1 (column [1]%Z)) = Ret st) in Hrun.
  assert (k_means_loop fuel (column [1]%Z) 1 (of_Z (-1))
            (init_state (column [1]%Z) 1 (column [1]%Z)) = Fuel) as Hloop.
  { apply (negative_tolerance_loops [[Qc_of_Z 1]] (Qc_of_Z (-1)) fuel
             (init_state (column [1]%Z) 1 (column [1]%Z)) 0 [0] [0]);
      try done.
    unfold shaped. simpl. lia. }
  by rewrite Hloop in Hrun.
Qed.

(** * Further properties of [k_means] *)

(** ** Calls that raise *)

Lemma for_each_app {S : Type} (l1 l2 : list nat) (body : nat → S → outcome S)
    (s : S) :
  for_each (l1 ++ l2) body s = (s' ← for_each l1 body s; for_each l2 body s').
Proof.
  revert s. induction l1 as [|i l1 IH]; intros s; [done|].
  simpl. destruct (body i s) as [t| |]; [|done..]. apply IH.
Qed.

(** The scan over [k] centroids fails at the first index past the rows of
    [mu]. *)
Lemma closest_short (mu : matrix) (k : nat) (x : vec) :
  (length mu < k)%nat → closest mu k x = Raise IndexError.
Proof.
  intros Hk. unfold closest, for_range.
  replace k with (length mu + S (k - S (length mu)))%nat by lia.
  rewrite seq_app, for_each_app.
  destruct (for_each_seq_inv (λ _ _, True) (scan_step mu x) (length mu) 0
              (0%nat, dist_inf) I) as (acc & -> & _).
  - intros j t Hj _. unfold scan_step, getitem.
    destruct (lookup_lt_is_Some_2 mu j) as [m ->]; [lia|]. simpl.
    destruct (dist_ltb _ _); by eexists.
  - simpl. unfold scan_step, getitem.
    by rewrite lookup_ge_None_2 by lia.
Qed.

Lemma for_range_first_raises {S : Type} (n : nat)
    (body : nat → S → outcome S) (s : S) (e : exn) :
  (0 < n)%nat → body 0%nat s = Raise e → for_range n body s = Raise e.
Proof.
  intros Hn Hbody. destruct n as [|n]; [lia|].
  unfold for_range. simpl. by rewrite Hbody.
Qed.

Lemma assign_point_raises (data : matrix) (k pt : nat) (st : kstate)
    (x : vec) (e : exn) :
  data !! pt = Some x → closest (mu_obj st) k x = Raise e →
  assign_point data k pt st = Raise e.
Proof.
  intros Hx Hc. unfold assign_point, getitem. rewrite Hx. simpl.
  by rewrite Hc.
Qed.

(** X2: a call with [k = 0] on data that has a row fails on the first point:
    [cluster_sizes] has no entry 0. *)
Theorem no_cluster_raises_IndexError (sample : list nat) (data : matrix)
    (eps : num) (mu : option matrix) (mu0 : matrix) (fuel : nat) :
  (0 < length data)%nat → initial_mu sample data mu = Ret mu0 →
  (0 < fuel)%nat →
  k_means fuel sample data 0 eps mu = Raise IndexError.
Proof.
  intros Hn Hmu0 Hfuel. unfold k_means, k_means_run. rewrite Hmu0, bind_Ret.
  destruct fuel as [|fuel]; [lia|]. rewrite k_means_loop_step by done.
  destruct data as [|x data]; [simpl in Hn; lia|].
  unfold k_means_iter. cbv zeta. unfold for_range at 1.
  change (seq 0 (length (x :: data))) with (0%nat :: seq 1 (length data)).
  change (for_each (0%nat :: ?l) ?body ?s)
    with (s' ← body 0%nat s; for_each l body s').
  unfold assign_point at 1. by simpl.
Qed.

Lemma no_cluster_raises_IndexError_witness :
  k_means 1 [] (column [4; 5]%Z) 0 tolerance None = Raise IndexError.
Proof.
  apply (no_cluster_raises_IndexError [] (column [4; 5]%Z) tolerance None []).
  - simpl. lia.
  - reflexivity.
  - lia.
Defined.

(** X3: a centroid matrix with fewer than [k] rows makes the call fail on the
    first point, when the scan reaches the missing row. *)
Theorem too_few_centroids_raise_IndexError (sample : list nat)
    (data : matrix) (k : nat) (eps : num) (mu : option matrix)
    (mu0 : matrix) (fuel : nat) :
  (0 < length data)%nat → initial_mu sample data mu = Ret mu0 →
  (length mu0 < k)%nat → (0 < fuel)%nat →
  k_means fuel sample data k eps mu = Raise IndexError.
Proof.
  intros Hn Hmu0 Hk Hfuel. unfold k_means, k_means_run.
  rewrite Hmu0, bind_Ret.
  destruct fuel as [|fuel]; [lia|]. rewrite k_means_loop_step by done.
  destruct data as [|x data]; [simpl in Hn; lia|].
  unfold k_means_iter. cbv zeta.
  rewrite (for_range_first_raises _ _ _ IndexError); [done|simpl; lia|].
  apply (assign_point_raises _ k 0 _ x IndexError); [done|].
  by apply closest_short.
Qed.

Lemma too_few_centroids_raise_IndexError_witness :
  k_means 1 [] (column [4; 5]%Z) 2 tolerance (Some (column [4]%Z)) =
    Raise IndexError.
Proof.
  apply (too_few_centroids_raise_IndexError [] (column [4; 5]%Z) 2 tolerance
           (Some (column [4]%Z)) (column [4]%Z)).
  - simpl. lia.
  - reflexivity.
  - simpl. lia.
  - lia.
Defined.

(** ** The flag a pass leaves *)

(** X4: whatever the other clusters did, the flag a pass leaves is the verdict
    on the last cluster: its new centroid against its row in the array
    [prev_mu] names, which is the all-zero array in the first pass and the
    array of [mu] itself afterwards. *)
Theorem pass_verdict_is_last_cluster (data : matrix) (k : nat) (eps : num)
    (st : kstate) :
  (0 < k)%nat → shaped (length data) k st →
  ∃ st' m p,
    k_means_iter data k eps st = Ret st' ∧
    mu_obj st' !! (k - 1)%nat = Some m ∧
    match prev_mu st with
    | MuObj => mu_obj st'
    | ZerosObj => zeros_obj st
    end !! (k - 1)%nat = Some p ∧
    converged st' = negb (dist_gtb (norm (vsub m p)) eps).
Proof.
  intros Hk Hsh.
  destruct (k_means_iter_spec data k eps st Hk Hsh)
    as (a & sizes & sums & m' & b & _ & _ & Hb & _ & Hrun).
  rewrite Hrun. unfold within in Hb. simpl in Hb.
  destruct (m' !! (k - 1)%nat) as [m|] eqn:Hm; [|done]. simpl in Hb.
  destruct (prev_mu st) eqn:Hprev; simpl in Hb.
  - rewrite Hm in Hb. injection Hb as <-. by eexists _, m, m.
  - destruct (zeros_obj st !! (k - 1)%nat) as [p|] eqn:Hp; [|done].
    injection Hb as <-. by eexists _, m, p.
Qed.

Lemma pass_verdict_is_last_cluster_witness :
  let data := column [10; 0]%Z in
  let st := init_state data 2 (column [10; 0]%Z) in
  ∃ st' m p,
    k_means_iter data 2 tolerance st = Ret st' ∧
    mu_obj st' !! (2 - 1)%nat = Some m ∧
    match prev_mu st with
    | MuObj => mu_obj st'
    | ZerosObj => zeros_obj st
    end !! (2 - 1)%nat = Some p ∧
    converged st' = negb (dist_gtb (norm (vsub m p)) tolerance).
Proof.
  apply (pass_verdict_is_last_cluster (column [10; 0]%Z) 2 tolerance
           (init_state (column [10; 0]%Z) 2 (column [10; 0]%Z))).
  - lia.
  - unfold shaped. simpl. lia.
Defined.

Lemma dist_gtb_lenient (a : dist) (eps : num) :
  eps = NaN ∨ eps = PInf → dist_gtb a eps = false.
Proof. intros [-> | ->]; unfold dist_gtb; by destruct (sq a). Qed.

(** X5: a tolerance that is [nan] or [+inf] is exceeded by no distance: the run
    returns after exactly one pass, whatever the data and the centroids. *)
Theorem lenient_tolerance_stops_after_first_pass (sample : list nat)
    (data : matrix) (k : nat) (eps : num) (mu : option matrix)
    (mu0 : matrix) (fuel : nat) :
  eps = NaN ∨ eps = PInf →
  (0 < k)%nat → initial_mu sample data mu = Ret mu0 →
  (k ≤ length mu0)%nat → (0 < fuel)%nat →
  ∃ st, k_means_run fuel sample data k eps mu = Ret st ∧ iters st = 1%nat.
Proof.
  intros Heps Hk Hmu0 Hlen Hfuel. unfold k_means_run.
  rewrite Hmu0, bind_Ret. destruct fuel as [|fuel]; [lia|].
  rewrite k_means_loop_step by done.
  destruct (k_means_iter_spec data k eps _ Hk
              (init_state_shaped data k mu0 Hlen))
    as (a & sizes & sums & m & b & _ & _ & Hb & _ & Hrun).
  rewrite Hrun, bind_Ret. unfold within in Hb.
  simpl in Hb. destruct (m !! (k - 1)%nat) as [r|]; simpl in Hb; [|done].
  destruct (_ !! _) as [p|]; simpl in Hb; [|done].
  rewrite dist_gtb_lenient in Hb by done. injection Hb as <-.
  rewrite k_means_loop_converged by done. by eexists.
Qed.

Lemma lenient_tolerance_stops_after_first_pass_witness :
  ∃ st, k_means_run 1 [] (column [0; 3; 10]%Z) 2 NaN
          (Some (column [0; 1]%Z)) = Ret st ∧ iters st = 1%nat.
Proof.
  apply (lenient_tolerance_stops_after_first_pass [] (column [0; 3; 10]%Z) 2
           NaN (Some (column [0; 1]%Z)) (column [0; 1]%Z) 1).
  - left. reflexivity.
  - lia.
  - reflexivity.
  - simpl. lia.
  - lia.
Defined.

(** ** What the loop over the points accumulates *)

Lemma sum_list_insert_S (l : list nat) (i x : nat) :
  l !! i = Some x → sum_list (<[i := S x]> l) = S (sum_list l).
Proof.
  revert i. induction l as [|y l IH]; intros [|i] Hi; try done.
  - injection Hi as ->. done.
  - simpl. rewrite (IH i Hi). lia.
Qed.

Lemma members_snoc (rows : matrix) (a : list nat) (x : vec) (c i : nat) :
  length rows = length a →
  members (rows ++ [x]) (a ++ [c]) i =
    members rows a i ++ (if decide (c = i) then [x] else []).
Proof.
  intros Hlen. unfold members. rewrite zip_with_app by done.
  rewrite filter_app, fmap_app. f_equal. simpl.
  rewrite filter_cons, filter_nil. simpl. by destruct (decide (c = i)).
Qed.

(** The state after the loop over the points: every point carries the index
    its scan chose, and each cluster's count and sum have grown by the
    number and by the rows of the points it received in this loop. *)
Lemma assign_loop_full (data : matrix) (k : nat) (st : kstate) :
  (0 < k)%nat → shaped (length data) k st →
  ∃ a sizes sums,
    for_range (length data) (assign_point data k) st =
      Ret (with_accumulators st a sizes sums) ∧
    shaped (length data) k (with_accumulators st a sizes sums) ∧
    length a = length data ∧
    (∀ pt x, data !! pt = Some x →
       ∃ c, closest (mu_obj st) k x = Ret c ∧ (c < k)%nat ∧
            a !! pt = Some c) ∧
    sum_list sizes = (sum_list (cluster_sizes st) + length data)%nat ∧
    (∀ c size0 sum0,
       cluster_sizes st !! c = Some size0 →
       cluster_sums st !! c = Some sum0 →
       sizes !! c = Some (size0 + length (members data a c))%nat ∧
       sums !! c = Some (foldl vadd sum0 (members data a c))).
Proof.
  intros Hk Hsh.
  destruct (for_range_inv
    (λ j t, ∃ a sizes sums,
       t = with_accumulators st a sizes sums ∧
       shaped (length data) k t ∧
       (∀ pt x, (pt < j)%nat → data !! pt = Some x →
          ∃ c, closest (mu_obj st) k x = Ret c ∧ (c < k)%nat ∧
               a !! pt = Some c) ∧
       sum_list sizes = (sum_list (cluster_sizes st) + j)%nat ∧
       (∀ c size0 sum0,
          cluster_sizes st !! c = Some size0 →
          cluster_sums st !! c = Some sum0 →
          sizes !! c =
            Some (size0 + length (members (take j data) (take j a) c))%nat ∧
          sums !! c =
            Some (foldl vadd sum0 (members (take j data) (take j a) c))))
    (assign_point data k) (length data) st)
    as (t & Hrun & a & sizes & sums & -> & Hsh' & Hpts & Hsum & Hacc).
  - exists (assignments st), (cluster_sizes st), (cluster_sums st).
    split; [by destruct st|]. split; [done|]. split; [intros; lia|].
    split; [lia|]. intros c size0 sum0 Hs0 Hm0. rewrite !take_0.
    by rewrite Nat.add_0_r.
  - intros j t Hj (a & sizes & sums & -> & Hsh' & Hpts & Hsum & Hacc).
    destruct (assign_point_spec data k j _ Hk Hsh' Hj)
      as (x & c & size & sum & Hx & Hc & Hck & Hsize & Hsum' & Hstep).
    simpl in Hc, Hsize, Hsum', Hstep.
    rewrite Hstep. eexists. split; [done|].
    destruct Hsh' as (Hsh1 & Hsh2 & Hsh3 & Hsh4 & Hsh5). simpl in *.
    exists (<[j := c]> a), (<[c := S size]> sizes), (<[c := vadd sum x]> sums).
    split; [done|]. split.
    { unfold shaped. simpl. by rewrite !length_insert. }
    split.
    { intros pt y Hpt Hy. destruct (decide (pt = j)) as [->|Hne].
      - rewrite Hx in Hy. injection Hy as <-. exists c.
        split; [done|]. split; [done|]. apply list_lookup_insert_eq. lia.
      - destruct (Hpts pt y) as (c' & ? & ? & ?); [lia|done|].
        exists c'. by rewrite list_lookup_insert_ne. }
    split.
    { rewrite (sum_list_insert_S _ _ _ Hsize), Hsum. lia. }
    intros c' size0 sum0 Hs0 Hm0.
    destruct (Hacc c' size0 sum0 Hs0 Hm0) as [Hsz Hsm].
    rewrite (take_S_r data j x Hx).
    rewrite (take_S_r (<[j := c]> a) j c)
      by (apply list_lookup_insert_eq; lia).
    rewrite take_insert_ge by lia.
    rewrite members_snoc by (rewrite !length_take; lia).
    destruct (decide (c = c')) as [<-|Hne].
    + rewrite Hsize in Hsz. injection Hsz as ->.
      rewrite Hsum' in Hsm. injection Hsm as ->.
      rewrite !list_lookup_insert_eq by lia.
      rewrite length_app, foldl_snoc. simpl. split; f_equal; lia.
    + rewrite !list_lookup_insert_ne by done.
      by rewrite app_nil_r.
  - exists a, sizes, sums. split; [done|]. split; [done|].
    destruct Hsh' as (_ & _ & Ha & _). simpl in Ha.
    split; [done|]. split.
    { intros pt x Hx. apply (Hpts pt x); [|done]. by eapply lookup_lt_Some. }
    split; [done|]. intros c size0 sum0 Hs0 Hm0.
    specialize (Hacc c size0 sum0 Hs0 Hm0).
    by rewrite !take_ge in Hacc by lia.
Qed.

(** ** Invariants of a run *)

Lemma init_state_settled (data : matrix) (k : nat) (mu : matrix) :
  (0 < k)%nat → (k ≤ length mu)%nat →
  settled (length data) k (length mu) (init_state data k mu).
Proof.
  intros Hk Hlen. split; [by apply init_state_shaped|]. split; [done|].
  simpl. split; [by apply Forall_replicate|].
  rewrite sum_list_replicate. lia.
Qed.

Lemma pass_settled (data : matrix) (k rows : nat) (eps : num) (st : kstate) :
  (0 < k)%nat → settled (length data) k rows st →
  ∃ st', k_means_iter data k eps st = Ret st' ∧
         settled (length data) k rows st' ∧
         iters st' = S (iters st).
Proof.
  intros Hk (Hsh & Hrows & _ & Hsum).
  set (st0 := with_iters st (S (iters st))).
  assert (shaped (length data) k st0) as Hsh0.
  { destruct Hsh as (? & ? & ? & ? & ?). by unfold shaped. }
  destruct (assign_loop_full data k st0 Hk Hsh0)
    as (a & sizes & sums & Hassign & Hsh1 & Ha & Hpts & Hsizes & _).
  destruct (update_loop_spec _ k _ Hsh1) as (m & Hupdate & Hlen & _).
  assert (shaped (length data) k
            (with_mu_obj (with_accumulators st0 a sizes sums) m)) as Hsh2.
  { destruct Hsh1 as (? & ? & ? & ? & ?). unfold shaped; simpl in *.
    repeat split; try done. lia. }
  destruct (check_loop_spec eps _ k _ Hsh2 Hk) as (b & _ & Hcheck).
  eexists. split.
  { unfold k_means_iter. cbv zeta. fold st0.
    by rewrite Hassign, bind_Ret, Hupdate, bind_Ret, Hcheck. }
  split; [|done]. split.
  { destruct Hsh2 as (? & ? & ? & ? & ?). by unfold shaped. }
  simpl. split; [by rewrite Hlen|]. split.
  - apply Forall_lookup. intros i c Hi.
    destruct (lookup_lt_is_Some_2 data i) as [x Hx].
    { rewrite <- Ha. by eapply lookup_lt_Some. }
    destruct (Hpts i x Hx) as (c' & _ & Hc' & Hi'). congruence.
  - rewrite Hsizes. simpl. rewrite Hsum. lia.
Qed.

Lemma loop_settled (fuel : nat) (data : matrix) (k rows : nat) (eps : num)
    (st st' : kstate) :
  (0 < k)%nat → settled (length data) k rows st →
  k_means_loop fuel data k eps st = Ret st' →
  settled (length data) k rows st'.
Proof.
  intros Hk. revert st. induction fuel as [|fuel IH]; intros st Hst Hrun.
  - simpl in Hrun. destruct (converged st); [by injection Hrun as <-|done].
  - destruct (converged st) eqn:Hconv.
    + rewrite k_means_loop_converged in Hrun by done. by injection Hrun as <-.
    + rewrite k_means_loop_step in Hrun by done.
      destruct (pass_settled data k rows eps st Hk Hst) as (st1 & Hpass & Hst1 & _).
      rewrite Hpass, bind_Ret in Hrun. by apply (IH st1).
Qed.

(** With a tolerance that is not negative, two passes of fuel are enough. *)
Lemma k_means_run_returns (sample : list nat) (data : matrix) (k : nat)
    (eps : num) (mu : option matrix) (mu0 : matrix) (fuel : nat) :
  (0 < k)%nat → initial_mu sample data mu = Ret mu0 →
  (k ≤ length mu0)%nat → nltb eps (Fin 0) = false → (2 ≤ fuel)%nat →
  ∃ st, k_means_run fuel sample data k eps mu = Ret st ∧
        settled (length data) k (length mu0) st.
Proof.
  intros Hk Hmu0 Hlen Heps Hfuel.
  assert (∃ st, k_means_run fuel sample data k eps mu = Ret st) as [st Hrun].
  { unfold k_means_run. rewrite Hmu0, bind_Ret.
    destruct fuel as [|[|fuel]]; [lia..|].
    pose proof (init_state_shaped data k mu0 Hlen) as Hsh0.
    destruct (k_means_iter_spec data k eps _ Hk Hsh0)
      as (a & sizes & sums & m & b & _ & _ & _ & Hsh2 & Hpass).
    rewrite k_means_loop_step by done. rewrite Hpass, bind_Ret.
    destruct b; [rewrite k_means_loop_converged by done; by eexists|].
    rewrite k_means_loop_step by done.
    set (st1 := with_prev_mu _ _).
    assert (shaped (length data) k st1) as Hsh1.
    { destruct Hsh2 as (? & ? & ? & ? & ?). by unfold shaped. }
    destruct (k_means_iter_spec data k eps st1 Hk Hsh1)
      as (a' & sizes' & sums' & m' & b' & _ & _ & Hb' & Hsh2' & Hpass').
    rewrite Hpass', bind_Ret.
    destruct Hsh2' as (Hm' & _). simpl in Hm'.
    destruct (lookup_lt_is_Some_2 m' (k - 1)) as [r Hr]; [lia|].
    rewrite (within_aliased _ eps (k - 1) r) in Hb'; [|done..].
    injection Hb' as <-. rewrite k_means_loop_converged by done.
    by eexists. }
  exists st. split; [done|].
  unfold k_means_run in Hrun. rewrite Hmu0, bind_Ret in Hrun.
  apply (loop_settled fuel data k (length mu0) eps (init_state data k mu0)
           st Hk); [|done].
  by apply init_state_settled.
Qed.

(** X1: what a call returns has the shape of what it was given: as many
    centroid rows as the initial matrix, one assignment per point, and every
    assignment an index below [k]. *)
Theorem k_means_result_is_well_shaped (sample : list nat) (data : matrix)
    (k : nat) (eps : num) (mu : option matrix) (mu0 : matrix) (fuel : nat) :
  (0 < k)%nat → initial_mu sample data mu = Ret mu0 →
  (k ≤ length mu0)%nat → nltb eps (Fin 0) = false → (2 ≤ fuel)%nat →
  ∃ m a, k_means fuel sample data k eps mu = Ret (m, a) ∧
         length m = length mu0 ∧
         length a = length data ∧
         Forall (λ c, c < k)%nat a.
Proof.
  intros Hk Hmu0 Hlen Heps Hfuel.
  destruct (k_means_run_returns sample data k eps mu mu0 fuel)
    as (st & Hrun & Hsh & Hrows & Hall & _); [done..|].
  exists (mu_obj st), (assignments st). unfold k_means. rewrite Hrun.
  split; [done|]. split; [done|]. split; [|done].
  by destruct Hsh as (_ & _ & ? & _).
Qed.

Lemma k_means_result_is_well_shaped_witness :
  ∃ m a, k_means 2 [2; 0]%nat (column [0; 3; 10]%Z) 2 tolerance None =
           Ret (m, a) ∧
         length m = length (column [10; 0]%Z) ∧
         length a = length (column [0; 3; 10]%Z) ∧
         Forall (λ c, c < 2)%nat a.
Proof.
  apply (k_means_result_is_well_shaped [2; 0]%nat (column [0; 3; 10]%Z) 2
           tolerance None (column [10; 0]%Z) 2).
  - lia.
  - reflexivity.
  - simpl. lia.
  - reflexivity.
  - lia.
Defined.

(** X6: the counts are never reset: when a run returns, they add up to the
    number of points times the number of passes made. *)
Theorem cluster_sizes_count_every_pass (sample : list nat) (data : matrix)
    (k : nat) (eps : num) (mu : option matrix) (mu0 : matrix) (fuel : nat) :
  (0 < k)%nat → initial_mu sample data mu = Ret mu0 →
  (k ≤ length mu0)%nat → nltb eps (Fin 0) = false → (2 ≤ fuel)%nat →
  ∃ st, k_means_run fuel sample data k eps mu = Ret st ∧
        sum_list (cluster_sizes st) = (iters st * length data)%nat.
Proof.
  intros Hk Hmu0 Hlen Heps Hfuel.
  destruct (k_means_run_returns sample data k eps mu mu0 fuel)
    as (st & Hrun & _ & _ & _ & Hsum); [done..|].
  by exists st.
Qed.

Lemma cluster_sizes_count_every_pass_witness :
  ∃ st, k_means_run 2 [] (column [0; 3; 10]%Z) 2 tolerance
          (Some (column [0; 1]%Z)) = Ret st ∧
        sum_list (cluster_sizes st) =
          (iters st * length (column [0; 3; 10]%Z))%nat.
Proof.
  apply (cluster_sizes_count_every_pass [] (column [0; 3; 10]%Z) 2 tolerance
           (Some (column [0; 1]%Z)) (column [0; 1]%Z) 2).
  - lia.
  - reflexivity.
  - simpl. lia.
  - reflexivity.
  - lia.
Defined.



(** On [[0], [3], [10]] from the centroids [[0], [1]]: cluster 0 takes the
    first point and cluster 1 the other two, whose mean 13/2 an integer
    array keeps as 6. *)
Example first_pass_in_both_dtypes :
  let data := column [0; 3; 10]%Z in
  let st := init_state data 2 (column [0; 1]%Z) in
  (∃ st', k_means_iter_in (Integer (- 2 ^ 63)) data 2 tolerance st = Ret st' ∧
          assignments st' = [0; 1; 1]%nat ∧ mu_obj st' = column [0; 6]%Z) ∧
  (∃ st', k_means_iter_in Floating data 2 tolerance st = Ret st' ∧
          assignments st' = [0; 1; 1]%nat ∧
          map (map rational) (mu_obj st') = [[Some 0%Q]; [Some (13 # 2)%Q]]).
Proof.
  split; eexists; (split; [vm_compute; reflexivity|]);
    split; vm_compute; reflexivity.
Qed.

(** * Further properties of the mixture models *)

Lemma fit_loop_unfold (V : Variant) (fuel : nat) (self : model)
    (data : matrix) (eps : pyfloat) (max_iters : nat) (last_ll : pyfloat)
    (i : nat) :
  fit_loop V (S fuel) self data eps max_iters last_ll i =
    if decide (max_iters < S i)%nat then Ret (self, false)
    else r ← em_step V self data;
         c ← small_change r.1.2 last_ll eps;
         if c : bool then Ret (record_fit r.1.1 data r.1.2 r.2, true)
         else fit_loop V fuel r.1.1 data eps max_iters r.1.2 (S i).
Proof. reflexivity. Qed.

(** The loop after [n] passes that fail the test: it is where a run from
    the object they lead to would be. *)
Lemma fit_loop_stalls_to (V : Variant) (data : matrix) (eps : pyfloat)
    (max_iters n fuel : nat) (self self1 : model) (last_ll ll1 : pyfloat)
    (i : nat) :
  (i + n ≤ max_iters)%nat →
  stalls_to V n self data eps last_ll self1 ll1 →
  fit_loop V (n + fuel) self data eps max_iters last_ll i =
    fit_loop V fuel self1 data eps max_iters ll1 (i + n).
Proof.
  revert self last_ll i. induction n as [|n IH]; intros self last_ll i Hi Hst.
  - destruct Hst as [-> ->]. by rewrite Nat.add_0_r.
  - destruct Hst as (s1 & ll & p_z & Hstep & Hchange & Hst).
    change (S n + fuel)%nat with (S (n + fuel)).
    rewrite fit_loop_unfold, decide_False by lia.
    rewrite Hstep, bind_Ret. simpl. rewrite Hchange, bind_Ret.
    rewrite (IH s1 ll (S i)) by (done || lia).
    f_equal. lia.
Qed.

(** Without rounding the test as computed is the exact one, and so is the
    loop. *)
Lemma small_change_by_exact (ll last_ll eps : pyfloat) :
  small_change_by (λ x, x) ll last_ll eps = small_change ll last_ll eps.
Proof. reflexivity. Qed.

Lemma fit_loop_by_exact (V : Variant) (fuel : nat) (self : model)
    (data : matrix) (eps : pyfloat) (max_iters : nat) (last_ll : pyfloat)
    (i : nat) :
  fit_loop_by (λ x, x) V fuel self data eps max_iters last_ll i =
    fit_loop V fuel self data eps max_iters last_ll i.
Proof.
  revert self last_ll i. induction fuel as [|fuel IH]; intros self last_ll i;
    [done|].
  rewrite fit_loop_by_unfold, fit_loop_unfold.
  destruct (decide _); [done|].
  destruct (em_step V self data) as [r| |]; [|done..].
  rewrite !bind_Ret, small_change_by_exact.
  destruct (small_change _ _ _) as [[|]| |]; [done| |done..].
  rewrite !bind_Ret. apply IH.
Qed.

Lemma fit_loop_by_stalls_to (rnd : num → num) (V : Variant) (data : matrix)
    (eps : pyfloat) (max_iters n fuel : nat) (self self1 : model)
    (last_ll ll1 : pyfloat) (i : nat) :
  (i + n ≤ max_iters)%nat →
  stalls_to_by rnd V n self data eps last_ll self1 ll1 →
  fit_loop_by rnd V (n + fuel) self data eps max_iters last_ll i =
    fit_loop_by rnd V fuel self1 data eps max_iters ll1 (i + n).
Proof.
  revert self last_ll i. induction n as [|n IH]; intros self last_ll i Hi Hst.
  - destruct Hst as [-> ->]. by rewrite Nat.add_0_r.
  - destruct Hst as (s1 & ll & p_z & Hstep & Hchange & Hst).
    change (S n + fuel)%nat with (S (n + fuel)).
    rewrite fit_loop_by_unfold, decide_False by lia.
    rewrite Hstep, bind_Ret. simpl. rewrite Hchange, bind_Ret.
    rewrite (IH s1 ll (S i)) by (done || lia).
    f_equal. lia.
Qed.

(** X9: a pass whose computed test meets the tolerance, after any number
    that did not, makes [fit] return [True]; the object then reads
    [n_train] as the number of rows and [max_ll] as the last
    log-likelihood, and its parameters are those of that pass with the last
    posterior stored under [p_z]. This holds whatever the rounding of the
    float operations is. *)
Theorem fit_success_records_the_fit (rnd : num → num) (V : Variant)
    (self self1 self2 : model) (data : matrix) (eps ll1 ll : pyfloat)
    (p_z : pyval) (max_iters n : nat) :
  (n < max_iters)%nat →
  stalls_to_by rnd V n self data eps float_min self1 ll1 →
  em_step V self1 data = Ret (self2, ll, p_z) →
  small_change_by rnd ll ll1 eps = Ret true →
  ∃ self',
    fit_by rnd V self data eps max_iters = Ret (self', true) ∧
    getattr self' "n_train" = Ret (VInt (Z.of_nat (length data))) ∧
    getattr self' "max_ll" = Ret (VFloat ll) ∧
    params self' !! "p_z" = Some p_z ∧
    ∀ key, key ≠ "p_z" → params self' !! key = params self2 !! key.
Proof.
  intros Hn Hst Hstep Hchange.
  exists (record_fit self2 data ll p_z). split.
  - unfold fit_by.
    replace (S max_iters) with (n + S (max_iters - n))%nat by lia.
    rewrite (fit_loop_by_stalls_to rnd V data eps max_iters n _ self self1
               float_min ll1 0) by (done || lia).
    rewrite fit_loop_by_unfold, decide_False by lia.
    rewrite Hstep, bind_Ret. simpl. by rewrite Hchange, bind_Ret.
  - unfold record_fit, getattr, setattr, update_params. simpl.
    split; [by rewrite lookup_insert_ne, lookup_insert_eq|].
    split; [by rewrite lookup_insert_eq|].
    split; [by rewrite lookup_union_l', lookup_singleton_eq|].
    intros key Hkey. rewrite lookup_union_r; [done|].
    by apply lookup_singleton_ne.
Qed.

Lemma fit_success_records_the_fit_witness :
  let self := GMM_init 1 [of_Z 1] [[of_Z 7]] in
  let self1 := update_params self {["pi" := VVec [of_Z 1]]} in
  let ll := PyFloat (of_Z (-1)) Builtin in
  ∃ self',
    fit_by overflow (constant_ll (-1)) self [[of_Z 0]; [of_Z 2]]
      (PyFloat tolerance Builtin) 5 = Ret (self', true) ∧
    getattr self' "n_train" = Ret (VInt (Z.of_nat 2)) ∧
    getattr self' "max_ll" = Ret (VFloat ll) ∧
    params self' !! "p_z" = Some (VMat [[of_Z 1]]) ∧
    ∀ key, key ≠ "p_z" →
      params self' !! key =
        params (update_params self1 {["pi" := VVec [of_Z 1]]}) !! key.
Proof.
  apply (fit_success_records_the_fit overflow (constant_ll (-1))
           (GMM_init 1 [of_Z 1] [[of_Z 7]])
           (update_params (GMM_init 1 [of_Z 1] [[of_Z 7]])
              {["pi" := VVec [of_Z 1]]})
           (update_params
              (update_params (GMM_init 1 [of_Z 1] [[of_Z 7]])
                 {["pi" := VVec [of_Z 1]]})
              {["pi" := VVec [of_Z 1]]})
           [[of_Z 0]; [of_Z 2]] (PyFloat tolerance Builtin)
           (PyFloat (of_Z (-1)) Builtin) (PyFloat (of_Z (-1)) Builtin)
           (VMat [[of_Z 1]]) 5 1).
  - lia.
  - simpl. eexists _, _, _. split; [reflexivity|].
    split; [vm_compute; reflexivity|]. split; reflexivity.
  - reflexivity.
  - vm_compute. reflexivity.
Defined.

(** With a log-likelihood of [2 ** 1023] and [eps = 10] the exact quotient
    of the first pass is below 3, but the difference to
    [np.finfo (float).min] overflows: the computed quotient is [inf], the
    test fails and a [fit] of one pass returns [False]. *)
Example overflow_fails_the_first_test :
  let ll := PyFloat (of_Z (2 ^ 1023)) Builtin in
  let eps := PyFloat (of_Z 10) Builtin in
  let V := {| e_step := λ _ _, Ret (ll, VMat [[of_Z 1]]);
              m_step := λ _ _ _, Ret {["pi" := VVec [of_Z 1]]} |} in
  let self := GMM_init 1 [of_Z 1] [[of_Z 7]] in
  small_change ll float_min eps = Ret true ∧
  small_change_by overflow ll float_min eps = Ret false ∧
  fit_by overflow V self [[of_Z 0]] eps 1 =
    Ret (update_params self {["pi" := VVec [of_Z 1]]}, false).
Proof. repeat split; vm_compute; reflexivity. Qed.

(** X10: an exception raised by the E-step or the M-step of a pass, after any
    number of passes that failed the test, leaves [fit] as it is. *)
Theorem step_exceptions_reach_the_caller (V : Variant) (self self1 : model)
    (data : matrix) (eps ll1 : pyfloat) (max_iters n : nat) (e : exn) :
  (n < max_iters)%nat →
  stalls_to V n self data eps float_min self1 ll1 →
  (e_step self1 data = Raise e ∨
   ∃ ll p_z, e_step self1 data = Ret (ll, p_z) ∧
             m_step self1 data p_z = Raise e) →
  fit V self data eps max_iters = Raise e.
Proof.
  intros Hn Hst Hraise. unfold fit.
  replace (S max_iters) with (n + S (max_iters - n))%nat by lia.
  rewrite (fit_loop_stalls_to V data eps max_iters n _ self self1
             float_min ll1 0) by (done || lia).
  rewrite fit_loop_unfold, decide_False by lia. unfold em_step.
  destruct Hraise as [He|(ll & p_z & He & Hm)]; rewrite He; [done|].
  simpl. by rewrite Hm.
Qed.

Lemma step_exceptions_reach_the_caller_witness :
  fit GMM_variant (GMM_init 2 [frac 1 2; frac 1 2] [[of_Z 0]; [of_Z 1]])
    [[of_Z 0]] (PyFloat tolerance Builtin) 100 = Raise NotImplementedError.
Proof.
  apply (step_exceptions_reach_the_caller GMM_variant
           (GMM_init 2 [frac 1 2; frac 1 2] [[of_Z 0]; [of_Z 1]])
           (GMM_init 2 [frac 1 2; frac 1 2] [[of_Z 0]; [of_Z 1]])
           [[of_Z 0]] (PyFloat tolerance Builtin) float_min 100 0).
  - lia.
  - split; reflexivity.
  - left. reflexivity.
Defined.

(** The classes of the file as they stand: with room for one pass, [fit]
    ends in [NotImplementedError] for each of them, through [GMM.fit] as
    well, and so does reading [bic]. *)
Example source_classes_are_stubs (self : model) (data : matrix)
    (eps : pyfloat) (max_iters : nat) :
  fit MixtureModel_variant self data eps (S max_iters) =
    Raise NotImplementedError ∧
  (∀ c, GMM_fit c GMM_variant self data eps (S max_iters) =
          Raise NotImplementedError) ∧
  fit CMM_variant self data eps (S max_iters) = Raise NotImplementedError ∧
  bic self = Raise NotImplementedError.
Proof. repeat split; reflexivity. Qed.

Lemma small_change_ends (ll last_ll eps : pyfloat) :
  small_change ll last_ll eps ≠ Fuel.
Proof.
  unfold small_change, fdiv.
  destruct (join _ _); [|done]. by destruct (decide _).
Qed.

Lemma fit_loop_ends (V : Variant) (data : matrix) (eps : pyfloat)
    (max_iters n : nat) (self : model) (last_ll : pyfloat) (i : nat) :
  (∀ s d, e_step s d ≠ Fuel) → (∀ s d p, m_step s d p ≠ Fuel) →
  (i + n)%nat = max_iters →
  fit_loop V (S n) self data eps max_iters last_ll i ≠ Fuel.
Proof.
  intros He Hm. revert self last_ll i.
  induction n as [|n IH]; intros self last_ll i Hi; rewrite fit_loop_unfold.
  - by rewrite decide_True by lia.
  - rewrite decide_False by lia. unfold em_step.
    destruct (e_step self data) as [[ll p_z]| |] eqn:Hes; [|done|by apply He in Hes].
    simpl.
    destruct (m_step self data p_z) as [new| |] eqn:Hms;
      [|done|by apply Hm in Hms].
    simpl.
    destruct (small_change ll last_ll eps) as [[|]| |] eqn:Hc;
      [done| |done|by apply small_change_ends in Hc].
    simpl. apply IH. lia.
Qed.

(** X11: [fit] makes at most [max_iters] passes: provided the two steps of the
    variant themselves end, the call returns or raises. *)
Theorem fit_ends_within_max_iters (V : Variant) (self : model)
    (data : matrix) (eps : pyfloat) (max_iters : nat) :
  (∀ s d, e_step s d ≠ Fuel) → (∀ s d p, m_step s d p ≠ Fuel) →
  fit V self data eps max_iters ≠ Fuel.
Proof. intros He Hm. unfold fit. by apply fit_loop_ends. Qed.

Lemma fit_ends_within_max_iters_witness :
  fit (constant_ll 0) (MixtureModel_init 2 [frac 1 2; frac 1 2]) [[of_Z 0]]
    (PyFloat tolerance Builtin) 3 ≠ Fuel.
Proof.
  apply (fit_ends_within_max_iters (constant_ll 0)
           (MixtureModel_init 2 [frac 1 2; frac 1 2]) [[of_Z 0]]
           (PyFloat tolerance Builtin) 3).
  - intros s d. simpl. discriminate.
  - intros s d p. simpl. discriminate.
Defined.

(** A [GMM] as its constructor leaves it: [k], [pi] and [mu] read back what
    was stored, and the attributes that only [fit] provides raise
    [AttributeError]. *)
Example fresh_GMM_attributes (k : nat) (pi : vec) (mu : matrix) :
  let self := GMM_init k pi mu in
  getattr self "k" = Ret (VInt (Z.of_nat k)) ∧
  getattr self "pi" = Ret (VVec pi) ∧
  getattr self "mu" = Ret (VMat mu) ∧
  (∀ attr, attr ∈ ["sigsq"; "n_train"; "max_ll"; "p_z"] →
     getattr self attr = Raise AttributeError).
Proof.
  intros self. repeat split; try reflexivity.
  intros attr Hattr. repeat (apply elem_of_cons in Hattr as [->|Hattr];
    [reflexivity|]). by apply elem_of_nil in Hattr.
Qed.

(** ** The first pass of [fit] *)

(** Linear facts on rationals in normal form, settled on their fractions. *)
Ltac qc_linear :=
  unfold Qcle, Qclt, Qcminus, Qcplus, Qcopp, Q2Qc in *; cbn [this] in *;
  repeat (rewrite Qred_correct in * ); lra.

Lemma float_min_val : fval float_min = Fin (- float_max).
Proof.
  unfold float_min, float_max, of_Z. cbn [fval]. f_equal.
  apply Z2Qc_inj_opp.
Qed.

Lemma float_max_pos : 0 < float_max.
Proof.
  unfold float_max. rewrite <- Z2Qc_inj_0. by apply Z2Qc_inj_lt.
Qed.

Lemma Qcabs_bounds (q : Qc) :
  q ≤ (if decide (q < 0) then - q else q) ∧
  - q ≤ (if decide (q < 0) then - q else q).
Proof. destruct (decide (q < 0)); split; qc_linear. Qed.

(** Measured from [-M], a log-likelihood [a] that is not below [-M/2] has
    moved by at least its own size. *)
Lemma first_quotient_at_least_one (a M : Qc) :
  0 < M → a ≠ 0 → - M ≤ a + a →
  1 ≤ (if decide ((a + - - M) / a < 0) then - ((a + - - M) / a)
       else (a + - - M) / a).
Proof.
  intros HM Ha Hlow. set (q := (a + - - M) / a).
  assert (q * a = a + - - M) as Hq.
  { unfold q. by rewrite Qcmult_comm, Qcmult_div_r. }
  destruct (Qcabs_bounds q) as [Hpos Hneg].
  destruct (Qclt_le_dec 0 a) as [Hgt|Hle].
  - apply Qcle_trans with q; [|done].
    apply (Qcmult_lt_0_le_reg_r 1 q a Hgt). rewrite Hq, Qcmult_1_l.
    qc_linear.
  - assert (a < 0) as Hlt.
    { destruct (Qcle_lt_or_eq _ _ Hle); [done|by subst]. }
    apply Qcle_trans with (- q); [|done].
    apply (Qcmult_lt_0_le_reg_r 1 (- q) (- a)); [qc_linear|].
    replace (- q * - a) with (q * a) by ring. rewrite Hq, Qcmult_1_l.
    qc_linear.
Qed.

Lemma first_quotient_not_small (x e : num) (M : Qc) :
  0 < M → nltb (Fin 1) e = false →
  (∀ a, x = Fin a → - M ≤ a + a) →
  nltb (nabs (ndiv (nsub x (Fin (- M))) x)) e = false.
Proof.
  intros HM He Hlow.
  destruct x as [a| | |]; [|by destruct e..].
  specialize (Hlow a eq_refl). unfold nsub, nopp, nadd, ndiv.
  destruct (decide (a = 0)) as [Ha|Ha].
  { destruct (_ ?= _); cbn [nabs]; auto using nltb_inf_l, nltb_nan_l. }
  pose proof (first_quotient_at_least_one a M HM Ha Hlow) as Hq.
  unfold nabs.
  destruct e as [e'| | |]; try done;
    destruct (decide (_ < 0)); try done; simpl in *;
    apply bool_decide_eq_false; apply bool_decide_eq_false in He;
    qc_linear.
Qed.

Lemma first_test_fails (ll eps : pyfloat) :
  nltb (Fin 1) (fval eps) = false →
  (∀ a, fval ll = Fin a → - float_max ≤ a + a) →
  small_change ll float_min eps = Ret false.
Proof.
  intros He Hlow. unfold small_change, fdiv, fsub, fltb, fabs.
  cbn [fval fkind]. rewrite float_min_val.
  replace (join (join (fkind ll) (fkind float_min)) (fkind ll))
    with Numpy64 by (by destruct (fkind ll)).
  cbn [mbind outcome_bind fval].
  by rewrite (first_quotient_not_small _ _ _ float_max_pos He Hlow).
Qed.

(** X13: the first test is made against [np.finfo (float).min]: for a tolerance
    of at most 1 and a log-likelihood that is not below half of that value
    the relative change is at least 1, the test fails, and [fit] with
    [max_iters = 1] returns [False] once its only pass has run. *)
Theorem single_pass_never_meets_the_tolerance (V : Variant)
    (self self' : model) (data : matrix) (eps ll : pyfloat) (p_z : pyval) :
  nltb (Fin 1) (fval eps) = false →
  (∀ a, fval ll = Fin a → - float_max ≤ a + a) →
  em_step V self data = Ret (self', ll, p_z) →
  small_change ll float_min eps = Ret false ∧
  fit V self data eps 1 = Ret (self', false).
Proof.
  intros He Hlow Hstep.
  pose proof (first_test_fails ll eps He Hlow) as Hfail.
  split; [done|]. unfold fit.
  rewrite fit_loop_unfold, decide_False by lia.
  rewrite Hstep, bind_Ret. cbn [fst snd]. rewrite Hfail, bind_Ret.
  rewrite fit_loop_unfold. by rewrite decide_True by lia.
Qed.

Lemma single_pass_never_meets_the_tolerance_witness :
  let self := GMM_init 1 [of_Z 1] [[of_Z 7]] in
  let ll := PyFloat (of_Z (-1)) Builtin in
  let eps := PyFloat tolerance Builtin in
  small_change ll float_min eps = Ret false ∧
  fit (constant_ll (-1)) self [[of_Z 0]] eps 1 =
    Ret (update_params self {["pi" := VVec [of_Z 1]]}, false).
Proof.
  apply (single_pass_never_meets_the_tolerance (constant_ll (-1))
           (GMM_init 1 [of_Z 1] [[of_Z 7]])
           (update_params (GMM_init 1 [of_Z 1] [[of_Z 7]])
              {["pi" := VVec [of_Z 1]]})
           [[of_Z 0]] (PyFloat tolerance Builtin)
           (PyFloat (of_Z (-1)) Builtin) (VMat [[of_Z 1]])).
  - reflexivity.
  - intros a Ha. injection Ha as <-. vm_compute. discriminate.
  - reflexivity.
Defined.

(** * Distances that are [nan] or infinite *)

(** X8: whatever the computed distances are, the scan picks a centroid at a
    computed distance below infinity that no centroid beats, or, when no
    centroid is at such a distance, the default index 0. A centroid whose
    distance is [nan] is therefore never picked but as that default. *)
Theorem closest_with_any_distances (measure : vec → vec → num) (mu : matrix)
    (k : nat) (x : vec) :
  (0 < k)%nat → (k ≤ length mu)%nat →
  ∃ c m_c, closest_by measure mu k x = Ret c ∧ (c < k)%nat ∧
    mu !! c = Some m_c ∧
    ((nltb (measure x m_c) PInf = true ∧
      ∀ u m, (u < k)%nat → mu !! u = Some m →
        nltb (measure x m) (measure x m_c) = false) ∨
     (c = 0%nat ∧
      ∀ u m, (u < k)%nat → mu !! u = Some m →
        nltb (measure x m) PInf = false)) ∧
    (is_nan (measure x m_c) = true →
     c = 0%nat ∧
     ∀ u m, (u < k)%nat → mu !! u = Some m →
       nltb (measure x m) PInf = false).
Proof.
  intros Hk Hlen. unfold closest_by.
  destruct (for_range_inv (scanned_any_by measure mu x)
              (scan_step_by measure mu x) k (0%nat, PInf))
    as ([c best] & Hrun & Hmin & Hbest).
  - split; [intros; lia|by left].
  - intros j acc Hj Hacc. by apply scan_step_by_scanned_any with k.
  - rewrite Hrun. cbn [fst snd] in *. rewrite bind_Ret. cbn [fst].
    destruct Hbest as [[-> ->]|(m_c & Hc & Hmc & -> & Hfin)].
    + destruct (lookup_lt_is_Some_2 mu 0) as [m0 Hm0]; [lia|].
      exists 0%nat, m0. split; [done|]. split; [done|]. split; [done|].
      split; [by right|]. done.
    + exists c, m_c. split; [done|]. split; [done|]. split; [done|].
      split; [by left|]. intros Hnan.
      destruct (measure x m_c); done.
Qed.

Lemma closest_with_any_distances_witness :
  let measure := float_distance root_of_square in
  let mu := [[NaN]; [of_Z 6]; [NaN]] in
  let x := [of_Z 3] in
  ∃ c m_c, closest_by measure mu 3 x = Ret c ∧ (c < 3)%nat ∧
    mu !! c = Some m_c ∧
    ((nltb (measure x m_c) PInf = true ∧
      ∀ u m, (u < 3)%nat → mu !! u = Some m →
        nltb (measure x m) (measure x m_c) = false) ∨
     (c = 0%nat ∧
      ∀ u m, (u < 3)%nat → mu !! u = Some m →
        nltb (measure x m) PInf = false)) ∧
    (is_nan (measure x m_c) = true →
     c = 0%nat ∧
     ∀ u m, (u < 3)%nat → mu !! u = Some m →
       nltb (measure x m) PInf = false).
Proof.
  apply (closest_with_any_distances (float_distance root_of_square)
           [[NaN]; [of_Z 6]; [NaN]] 3 [of_Z 3]).
  - lia.
  - simpl. lia.
Defined.

(** Centroids at distance [nan] are passed over; when all are, or when all
    the distances overflow, the point keeps the default index 0. *)
Example nan_centroids_are_passed_over :
  let measure := float_distance root_of_square in
  closest_by measure [[NaN]; [of_Z 6]; [NaN]] 3 [of_Z 3] = Ret 1%nat ∧
  closest_by measure [[NaN]; [NaN]] 2 [of_Z 3] = Ret 0%nat ∧
  closest_by measure (column [2 ^ 700; 2 ^ 699]%Z) 2 [of_Z 0] = Ret 0%nat.
Proof. repeat split; vm_compute; reflexivity. Qed.

(** * A failed fit after a successful one *)

(** X14: [fit] clears nothing: when it gives up, an attribute set earlier, such
    as the [n_train] of a previous successful call, still reads its old
    value. *)
Theorem failed_fit_keeps_earlier_attributes (V : Variant) (self : model)
    (data : matrix) (eps : pyfloat) (max_iters : nat) (attr : string)
    (v : pyval) :
  attr ≠ "k" → inst self !! attr = Some v →
  stalls V max_iters self data eps float_min →
  ∃ self',
    fit V self data eps max_iters = Ret (self', false) ∧
    getattr self' attr = Ret v.
Proof.
  intros Hk Hattr Hstall.
  destruct (fit_loop_stalls V data eps max_iters max_iters self float_min 0)
    as (self' & Hfit & Hinst); [done..|].
  exists self'. split; [done|].
  unfold getattr. by rewrite decide_False, Hinst, Hattr.
Qed.

Lemma failed_fit_keeps_earlier_attributes_witness :
  let self := setattr (GMM_init 1 [of_Z 1] [[of_Z 7]]) "n_train" (VInt 50) in
  ∃ self',
    fit (constant_ll (-1)) self [[of_Z 0]] (PyFloat tolerance Builtin) 1 =
      Ret (self', false) ∧
    getattr self' "n_train" = Ret (VInt 50).
Proof.
  apply (failed_fit_keeps_earlier_attributes (constant_ll (-1))
           (setattr (GMM_init 1 [of_Z 1] [[of_Z 7]]) "n_train" (VInt 50))
           [[of_Z 0]] (PyFloat tolerance Builtin) 1 "n_train" (VInt 50)).
  - discriminate.
  - reflexivity.
  - simpl. eexists _, _, _. split; [reflexivity|].
    split; [vm_compute; reflexivity|exact I].
Defined.
